(** * hippiehug skip-chain: a shallow embedding of [Utils.py], [Store.py]
    and [Chain.py], and the properties of the chain engine.

    Python dictionaries are [gmap]s, the set of finger indices is a [gset],
    Python integers are [Z], [bytes] are lists of [byte], [str] is [string].
    Exceptions are values of [exn]; a method that can raise returns an
    [outcome].  Methods of [Chain] mutate [self]: they are state
    transformers over the record [Chain].  A block refers to its chain
    through a reference ([chain_ref]) into a heap of chains, since the chain
    in turn holds blocks in its cache. *)

From Stdlib Require Import ZArith Lia List.
From Stdlib.Strings Require Import Byte Ascii String.
From stdpp Require Import gmap strings list fin_maps pretty.

Open Scope string_scope.
Open Scope list_scope.
Open Scope Z_scope.

(** ** Exceptions and outcomes *)

Inductive exn : Type :=
  | ValueError (msg : string)
  | IntegrityValidationError (msg : string)
  | AttributeError
  | IndexError.

(** [Diverge] is the outcome of a loop whose fuel ran out. *)
Inductive outcome (A : Type) : Type :=
  | Return (a : A)
  | Raise (e : exn)
  | Diverge.
Arguments Return {A} a.
Arguments Raise {A} e.
Arguments Diverge {A}.

Definition bytes : Type := list byte.

(** ** Utils.py *)

(** The digest function ([hashlib.sha256] in the source) is the one
    primitive taken as a parameter. *)
Class Hasher := { xhash : bytes -> bytes }.

Definition hex_digit (n : N) : ascii :=
  match n with
  | 0 => "0" | 1 => "1" | 2 => "2" | 3 => "3" | 4 => "4" | 5 => "5"
  | 6 => "6" | 7 => "7" | 8 => "8" | 9 => "9" | 10 => "a" | 11 => "b"
  | 12 => "c" | 13 => "d" | 14 => "e" | _ => "f"
  end%N%char.

(** [binascii.hexlify(..).decode('utf-8')]: two lower-case hexadecimal
    digits per byte, high nibble first. *)
Fixpoint hexlify (item : bytes) : string :=
  match item with
  | [] => EmptyString
  | b :: rest =>
      String (hex_digit (Byte.to_N b / 16))
        (String (hex_digit (Byte.to_N b mod 16)) (hexlify rest))
  end.

Section Utils.
Context `{Hasher}.

Definition binary_hash (item : bytes) : bytes := xhash item.

Definition ascii_hash (item : bytes) : string := hexlify (binary_hash item).

Definition check_hash (hsh : string) (item : bytes) : outcome unit :=
  if bool_decide (hsh ≠ ascii_hash item)
  then Raise (IntegrityValidationError "Object has wrong hash.")
  else Return tt.
End Utils.

(** ** Store.py *)

Record DictionaryStore : Type := mkStore { _backend : gmap string bytes }.

Section Store.
Context `{Hasher}.

Definition DictionaryStore_get (self : DictionaryStore) (obj_hash : string)
    (check_integrity : bool) : outcome (option bytes) :=
  let serialized_obj := _backend self !! obj_hash in
  match serialized_obj with
  | Some item =>
      if check_integrity then
        match check_hash obj_hash item with
        | Return _ => Return serialized_obj
        | Raise e => Raise e
        | Diverge => Diverge
        end
      else Return serialized_obj
  | None => Return serialized_obj
  end.

Definition DictionaryStore_put (self : DictionaryStore)
    (serialized_obj : bytes) : DictionaryStore :=
  let obj_hash := ascii_hash serialized_obj in
  mkStore (<[obj_hash := serialized_obj]> (_backend self)).
End Store.

(** ** Chain.py: blocks *)

Definition chain_ref : Type := nat.

Record Block (Payload : Type) : Type := mkBlock {
  index : Z;
  payload : option Payload;
  fingers : list (Z * string);
  _chain : option chain_ref
}.
Arguments mkBlock {Payload} _ _ _ _.
Arguments index {Payload} _.
Arguments payload {Payload} _.
Arguments fingers {Payload} _.
Arguments _chain {Payload} _.

(** What a concrete block class supplies: the two methods that [BaseBlock]
    leaves abstract, and the hook it expects to be overridden.  The hook
    runs on [self] and may change it in place: it maps the block before to
    the block after. *)
Class BlockCls (Payload : Type) := {
  serialize : Block Payload -> bytes;
  deserialize : bytes -> outcome (Block Payload);
  pre_commit : Block Payload -> Block Payload
}.

Abbreviation BaseBlock_index := (@index _).

(** [BaseBlock.pre_commit] itself: [pass]. *)
Definition BaseBlock_pre_commit {Payload} (self : Block Payload) : Block Payload := self.

(** [BaseBlock.__init__]; [fingers or []] turns [None] into the empty list. *)
Definition BaseBlock_init {Payload} (index : Z) (payload : option Payload)
    (fingers : option (list (Z * string))) (_chain : option chain_ref) : Block Payload :=
  mkBlock index payload (default [] fingers) _chain.

(** [set(index - 1 - ((index - 1) % (2**f)) for f in range(64))]; Python's
    [%] with a positive modulus is [Z.modulo]. *)
Definition BaseBlock_skipchain_indices (index : Z) : gset Z :=
  list_to_set ((λ f : nat, index - 1 - ((index - 1) `mod` (2 ^ Z.of_nat f))) <$> seq 0 64).

Section BaseBlock.
Context {Payload : Type} `{Hasher} `{!BlockCls Payload}.

Definition BaseBlock_hid (self : Block Payload) : string :=
  let serialized := serialize self in
  ascii_hash serialized.

(** The keyword arguments forwarded to the constructor are the payload. *)
Definition BaseBlock_make_next_block (current_block : option (Block Payload))
    (_chain : option chain_ref) (payload : option Payload) : Block Payload :=
  match current_block with
  | None => BaseBlock_init 0 payload None _chain
  | Some current_block =>
      let new_index := index current_block + 1 in
      let newfingers := [(index current_block, BaseBlock_hid current_block)] in
      let finger_index := BaseBlock_skipchain_indices new_index in
      let newfingers :=
        newfingers ++ filter (λ f, f.1 ∈ finger_index) (fingers current_block) in
      BaseBlock_init new_index payload (Some newfingers) _chain
  end.

(** [__eq__]: equal content hashes. *)
Definition BaseBlock_eq (self other : Block Payload) : bool :=
  bool_decide (BaseBlock_hid self = BaseBlock_hid other).
End BaseBlock.

(** ** A state-and-exception monad for methods that mutate [self] *)

Definition M (St A : Type) : Type := St -> outcome A * St.

Definition ret {St A} (a : A) : M St A := λ s, (Return a, s).
Definition raise {St A} (e : exn) : M St A := λ s, (Raise e, s).
Definition out_of_fuel {St A} : M St A := λ s, (Diverge, s).
Definition bind {St A B} (m : M St A) (k : A -> M St B) : M St B :=
  λ s, match m s with
       | (Return a, s') => k a s'
       | (Raise e, s') => (Raise e, s')
       | (Diverge, s') => (Diverge, s')
       end.
Definition get_self {St} : M St St := λ s, (Return s, s).
Definition update {St} (f : St -> St) : M St unit := λ s, (Return tt, f s).
Definition lift {St A} (o : outcome A) : M St A := λ s, (o, s).

Notation "'let*' x ':=' m 'in' k" := (bind m (λ x, k))
  (at level 10, x name, m at level 100, k at level 200).
Notation "m ';;' k" := (bind m (λ _, k))
  (at level 100, k at level 200, right associativity).

(** An [OrderedDict]: assigning to a key that is present keeps its place. *)
Fixpoint od_set {V} (k : string) (v : V) (d : list (string * V)) : list (string * V) :=
  match d with
  | [] => [(k, v)]
  | (k', v') :: d' =>
      if decide (k = k') then (k, v) :: d' else (k', v') :: od_set k v d'
  end.

(** ** Chain.py: the chain *)

Record Chain (Payload : Type) : Type := mkChain {
  object_store : DictionaryStore;
  cache : gmap string (Block Payload);
  head : option string
}.
Arguments mkChain {Payload} _ _ _.
Arguments object_store {Payload} _.
Arguments cache {Payload} _.
Arguments head {Payload} _.

(** What [get_block_by_index] hands back: [None], the block, or the pair of
    the block and the evidence. *)
Inductive lookup_result (Payload : Type) : Type :=
  | NoBlock
  | Found (block : Block Payload)
  | FoundWithEvidence (block : Block Payload) (evidence : list (string * Block Payload)).
Arguments NoBlock {Payload}.
Arguments Found {Payload} _.
Arguments FoundWithEvidence {Payload} _ _.

(** The chains that blocks refer to. *)
Definition heap (Payload : Type) : Type := chain_ref -> Chain Payload.

Definition heap_set {Payload} (c : chain_ref) (ch : Chain Payload)
    (h : heap Payload) : heap Payload :=
  λ c', if decide (c' = c) then ch else h c'.

(** Run a method of the chain at reference [c]. *)
Definition on_chain {Payload A} (c : chain_ref) (m : M (Chain Payload) A)
    : M (heap Payload) A :=
  λ h, let '(r, ch) := m (h c) in (r, heap_set c ch h).

Section Chain.
Context {Payload : Type} `{Hasher} `{!BlockCls Payload}.

Abbreviation Block := (Block Payload).
Abbreviation Chain := (Chain Payload).

(** [Chain.__init__] with a block class at hand; [cache or {}]. *)
Definition Chain_init (object_store : DictionaryStore) (head : option string)
    (cache : option (gmap string Block)) : Chain :=
  mkChain object_store (default ∅ cache) head.

Definition Chain_get_block_by_hid (hid : string) : M Chain (option Block) :=
  let* self := get_self in
  match cache self !! hid with
  | Some block => ret (Some block)
  | None =>
      let* raw_block := lift (DictionaryStore_get (object_store self) hid true) in
      match raw_block with
      | Some raw_block =>
          let* block := lift (deserialize raw_block) in
          update (λ self, mkChain (object_store self) (<[hid := block]> (cache self))
                            (head self));;
          ret (Some block)
      | None => ret None
      end
  end.

(** [head_block]: with no head the key is [None], which neither the cache
    nor the backend (both keyed by hashes) holds. *)
Definition Chain_head_block : M Chain (option Block) :=
  let* self := get_self in
  match head self with
  | Some hid => Chain_get_block_by_hid hid
  | None => ret None
  end.

(** [__len__]: the [AttributeError] of [None.index] is caught. *)
Definition Chain_len : M Chain Z :=
  let* head_block := Chain_head_block in
  match head_block with
  | Some head_block => ret (index head_block + 1)
  | None => ret 0
  end.

(** [self_ref] is the reference of the chain the method runs on
    ([_chain=self]). *)
Definition Chain_make_next_block (self_ref : chain_ref) (payload : option Payload)
    : M Chain Block :=
  let* head_block := Chain_head_block in
  ret (BaseBlock_make_next_block head_block (Some self_ref) payload).

Definition Chain_commit_block (block : Block) : M Chain unit :=
  update (λ self, mkChain (object_store self) (cache self) (Some (BaseBlock_hid block)));;
  update (λ self, mkChain (object_store self)
                    (<[BaseBlock_hid block := block]> (cache self)) (head self));;
  update (λ self, mkChain (DictionaryStore_put (object_store self) (serialize block))
                    (cache self) (head self)).

(** [[(f, h) for (f, h) in current_block.fingers if f >= index][0]] *)
Definition first_finger (index : Z) (current_block : Block) : outcome (Z * string) :=
  match filter (λ fh : Z * string, index ≤ fh.1) (fingers current_block) with
  | fh :: _ => Return fh
  | [] => Raise IndexError
  end.

(** The [while] loop of [get_block_by_index]; each iteration takes one
    unit of fuel. *)
Fixpoint Chain_walk (fuel : nat) (index : Z) (return_evidence : bool) (hid : string)
    (current_block : option Block) (evidence : list (string * Block))
    : M Chain (lookup_result Payload) :=
  match current_block with
  | None => ret NoBlock
  | Some current_block =>
      match fuel with
      | O => out_of_fuel
      | S fuel =>
          let evidence :=
            if return_evidence then od_set hid current_block evidence else evidence in
          if bool_decide (index = BaseBlock_index current_block) then
            if return_evidence then ret (FoundWithEvidence current_block evidence)
            else ret (Found current_block)
          else
            let* fh := lift (first_finger index current_block) in
            let hid := fh.2 in
            let* current_block := Chain_get_block_by_hid hid in
            Chain_walk fuel index return_evidence hid current_block evidence
      end
  end.

(** The message of the range error; [{}] prints an integer in decimal. *)
Definition beyond_head_msg (index head_index : Z) : string :=
  "Block is beyond this chain head. Must be0 <= " +:+ pretty index +:+ " <= "
    +:+ pretty head_index +:+ ".".

Definition Chain_get_block_by_index (fuel : nat) (index : Z) (return_evidence : bool)
    : M Chain (lookup_result Payload) :=
  let* self := get_self in
  match head self with
  | None => ret NoBlock
  | Some _ =>
      let evidence := [] in
      let* head_block := Chain_head_block in
      match head_block with
      | None => raise AttributeError
      | Some head_block =>
          if negb (bool_decide (0 ≤ index ≤ BaseBlock_index head_block)) then
            let* head_block := Chain_head_block in
            match head_block with
            | None => raise AttributeError
            | Some head_block =>
                raise (ValueError (beyond_head_msg index (BaseBlock_index head_block)))
            end
          else
            let* self := get_self in
            match head self with
            | None => ret NoBlock
            | Some hid =>
                let* current_block := Chain_head_block in
                Chain_walk fuel index return_evidence hid current_block evidence
            end
      end
  end.

(** [BaseBlock.commit]; the result is [self] as the call leaves it.  The
    second look at [_chain] is the attribute access of
    [self._chain.commit_block], made after the hook has run. *)
Definition BaseBlock_commit (self : Block) : M (heap Payload) Block :=
  match _chain self with
  | None => raise (ValueError "Chain undefined.")
  | Some _ =>
      let self := pre_commit self in
      match _chain self with
      | None => raise AttributeError
      | Some c => on_chain c (Chain_commit_block self);; ret self
      end
  end.

(** ** tests/test_chain.py: building a chain *)

(** [block.payload = p] *)
Definition set_payload (p : Payload) (block : Block) : Block :=
  mkBlock (BaseBlock_index block) (Some p) (fingers block) (_chain block).

(** The loop of the fixture [chain_and_hids] on the chain at [c], one
    iteration per payload ([make_next_block], set the payload, [commit]);
    it gives the committed blocks back, in order.  The fixture's [hids]
    are their hashes. *)
Fixpoint commit_payloads (c : chain_ref) (ps : list Payload)
    : M (heap Payload) (list Block) :=
  match ps with
  | [] => ret []
  | p :: ps =>
      let* block := on_chain c (Chain_make_next_block c None) in
      let block := set_payload p block in
      let* block := BaseBlock_commit block in
      let* blocks := commit_payloads c ps in
      ret (block :: blocks)
  end.
End Chain.

(** [chain.cache.clear()], as the tests do before reading from the store. *)
Definition clear_cache {Payload} (ch : Chain Payload) : Chain Payload :=
  mkChain (object_store ch) ∅ (head ch).

(** [chain.object_store._backend[key] = raw], the tampering of
    [test_get_block_by_hid_fails_if_hash_wrong]. *)
Definition overwrite_backend {Payload} (key : string) (raw : bytes)
    (ch : Chain Payload) : Chain Payload :=
  mkChain (mkStore (<[key := raw]> (_backend (object_store ch)))) (cache ch) (head ch).

(** ** A concrete block class and hasher, to run the definitions on *)

(** FNV-1a, 32 bits, as a four-byte digest. *)
Definition fnv1a (item : bytes) : bytes :=
  let h := fold_left (λ h b, (Z.lxor h (Z.of_N (Byte.to_N b)) * 16777619) `mod` 2 ^ 32)
             item 2166136261 in
  (λ k : Z, default x00 (Byte.of_N (Z.to_N ((h / 2 ^ (8 * k)) `mod` 256)))) <$> [3; 2; 1; 0].

Definition fnv_hasher : Hasher := {| xhash := fnv1a |}.

Fixpoint pos_to_bytes (p : positive) : bytes :=
  match p with
  | xH => []
  | xO p => x00 :: pos_to_bytes p
  | xI p => x01 :: pos_to_bytes p
  end.

Fixpoint bytes_to_pos (bs : bytes) : positive :=
  match bs with
  | [] => xH
  | x00 :: bs => xO (bytes_to_pos bs)
  | _ :: bs => xI (bytes_to_pos bs)
  end.

(** A codec over (index, payload, fingers) with string payloads; a decoded
    block belongs to no chain, and the hook is [BaseBlock]'s. *)
Definition packed_block : BlockCls string := {|
  serialize b := pos_to_bytes (encode (index b, payload b, fingers b));
  deserialize raw :=
    match decode (A := Z * option string * list (Z * string)) (bytes_to_pos raw) with
    | Some (i, p, fs) => Return (BaseBlock_init i p (Some fs) None)
    | None => Raise (ValueError "No block could be decoded.")
    end;
  pre_commit := BaseBlock_pre_commit
|}.

(** An empty chain over an empty dictionary, at every reference. *)
Definition empty_heap : heap string := λ _, Chain_init (mkStore ∅) None None.

(** [{hid: block.serialize() for hid, block in evidence.items()}] *)
Definition serialized_evidence {Payload} `{!BlockCls Payload}
    (evidence : list (string * Block Payload)) : gmap string bytes :=
  foldl (λ d kv, <[kv.1 := serialize kv.2]> d) ∅ evidence.

(** The second chain of [test_chain_evidence]: the head of the first, an
    empty cache, and a store holding the serialized evidence alone. *)
Definition replay_chain {Payload} `{!BlockCls Payload} (head : option string)
    (evidence : list (string * Block Payload)) : Chain Payload :=
  Chain_init (mkStore (serialized_evidence evidence)) head None.

(** What an outcome returned, if it returned. *)
Definition returned {A} (dflt : A) (o : outcome A) : A :=
  match o with
  | Return a => a
  | _ => dflt
  end.

Definition found_block {Payload} (r : lookup_result Payload) : option (Block Payload) :=
  match r with
  | NoBlock => None
  | Found block => Some block
  | FoundWithEvidence block _ => Some block
  end.

Definition found_evidence {Payload} (r : lookup_result Payload)
    : list (string * Block Payload) :=
  match r with
  | FoundWithEvidence _ evidence => evidence
  | _ => []
  end.

(** Three blocks committed on an empty chain, as the fixture does. *)
Definition three_payloads : list string := ["Block 0"; "Block 1"; "Block 2"].

Definition three_run : outcome (list (Block string)) * heap string :=
  commit_payloads (H := fnv_hasher) (BlockCls0 := packed_block) 0%nat three_payloads
    empty_heap.

Definition three_blocks : list (Block string) :=
  Eval vm_compute in returned [] three_run.1.

Definition three_chain : Chain string := three_run.2 0%nat.

(** The lookup of index 1 with evidence on that chain, and its parts. *)
Definition three_lookup : outcome (lookup_result string) * Chain string :=
  Chain_get_block_by_index (H := fnv_hasher) (BlockCls0 := packed_block) 3 1 true
    three_chain.

Definition three_found : Block string :=
  Eval vm_compute in
    default (BaseBlock_init 0 None None None) (found_block (returned NoBlock three_lookup.1)).

Definition three_evidence : list (string * Block string) :=
  Eval vm_compute in found_evidence (returned NoBlock three_lookup.1).

(** The second and third of the three blocks, and the three-block chain
    with its cache cleared and the bytes of the second block overwritten. *)
Definition second_block : Block string :=
  mkBlock 1 (Some "Block 1") [(0, "d0dd3366")] (Some 0%nat).

Definition third_block : Block string :=
  mkBlock 2 (Some "Block 2") [(1, "7c3eefb2"); (0, "d0dd3366")] (Some 0%nat).

Definition three_tampered : Chain string :=
  overwrite_backend "7c3eefb2" [x00] (clear_cache three_chain).

(** * The vocabulary of the properties *)

(** The inverse of [hexlify]. *)

Definition hex_value (a : ascii) : N :=
  let n := N_of_ascii a in if (n <? 58)%N then (n - 48)%N else (n - 87)%N.

Definition byte_of_hex (hi lo : ascii) : byte :=
  default x00 (Byte.of_N (16 * hex_value hi + hex_value lo)).

Fixpoint unhexlify (s : string) : bytes :=
  match s with
  | String hi (String lo rest) => byte_of_hex hi lo :: unhexlify rest
  | _ => []
  end.

Section Vocabulary.
Context {Payload : Type} `{Hasher} `{!BlockCls Payload}.

Abbreviation Block := (Block Payload).
Abbreviation Chain := (Chain Payload).
Implicit Types (b pred : Block) (ch : Chain) (h : heap Payload)
  (bs : list Block) (c : chain_ref) (ps : list Payload).

(** The hook may finalize the payload; it leaves the index, the fingers
    and the chain of the block alone ([BaseBlock]'s own hook does). *)
Definition hook_keeps_links : Prop :=
  ∀ b, BaseBlock_index (pre_commit b) = BaseBlock_index b
       ∧ fingers (pre_commit b) = fingers b
       ∧ _chain (pre_commit b) = _chain b.

(** [b] has the index and the fingers that [make_next_block] gives the
    successor of [prev]. *)
Definition follows (prev : option Block) b : Prop :=
  BaseBlock_index b = BaseBlock_index (BaseBlock_make_next_block prev None None)
  ∧ fingers b = fingers (BaseBlock_make_next_block prev None None).

Fixpoint linked_from (prev : option Block) bs : Prop :=
  match bs with
  | [] => True
  | b :: bs => follows prev b ∧ linked_from (Some b) bs
  end.

(** The cache after the blocks [bs] were committed in order. *)
Definition cache_after (m : gmap string Block) bs : gmap string Block :=
  foldl (λ m b, <[BaseBlock_hid b := b]> m) m bs.

(** The chain's head names [prev], and the cache holds it. *)
Definition at_head ch (prev : option Block) : Prop :=
  match prev with
  | None => head ch = None
  | Some b => head ch = Some (BaseBlock_hid b) ∧ cache ch !! BaseBlock_hid b = Some b
  end.

(** The block that the head names after [bs] were committed on top of
    [prev]. *)
Definition last_from (prev : option Block) bs : option Block :=
  match last bs with
  | Some b => Some b
  | None => prev
  end.

Definition next_index (prev : option Block) : Z :=
  BaseBlock_index (BaseBlock_make_next_block prev None None).

Definition entries bs : list (string * Block) := (λ b, (BaseBlock_hid b, b)) <$> bs.

(** What the traversal hands back for the block [b]. *)
Definition found (return_evidence : bool) b (evidence : list (string * Block))
    : lookup_result Payload :=
  if return_evidence then FoundWithEvidence b evidence else Found b.

Definition visited (return_evidence : bool) bs (k : nat) : list (string * Block) :=
  if return_evidence then entries (reverse (drop k bs)) else [].

(** Two blocks with the same index, fingers and serialization. *)
Definition same_content (d b : Block) : Prop :=
  BaseBlock_index d = BaseBlock_index b ∧ fingers d = fingers b
  ∧ serialize d = serialize b.

(** The codec contract: decoding what a block serializes to succeeds and
    gives a block of the same index and fingers that serializes to the
    same bytes. *)
Definition codec_roundtrip : Prop :=
  ∀ b, ∃ b', deserialize (serialize b) = Return b' ∧ same_content b' b.

(** The keys [G] are cached under their own hash, and the fingers of
    their blocks stay within [G]. *)
Definition closed (G : string -> Prop) ch : Prop :=
  ∀ key, G key ->
    ∃ b, cache ch !! key = Some b ∧ BaseBlock_hid b = key
         ∧ ∀ fh, fh ∈ fingers b -> G fh.2.

(** Every entry of the evidence is an entry of the cache, under a key of [G]. *)
Definition agree (G : string -> Prop) ch (ev : list (string * Block)) : Prop :=
  ∀ kv, kv ∈ ev -> G kv.1 ∧ cache ch !! kv.1 = Some kv.2.

(** What the cache of the replaying chain holds has the content of what
    the first chain caches under the same key. *)
Definition cache_follows ch ch2 : Prop :=
  ∀ k d, cache ch2 !! k = Some d -> ∃ b, cache ch !! k = Some b ∧ same_content d b.

(** The indices that the fingers of a block point to. *)
Definition finger_targets b : gset Z := list_to_set (fst <$> fingers b).
End Vocabulary.

(** Every entry of the store is filed under the hash of its bytes. *)
Definition content_addressed `{Hasher} (s : DictionaryStore) : Prop :=
  ∀ key item, _backend s !! key = Some item -> key = ascii_hash item.

Section BuiltVocabulary.
Context {Payload : Type} `{Hasher} `{!BlockCls Payload}.

(** The backend after the blocks [bs] were committed in order. *)
Definition store_after (m : gmap string bytes) (bs : list (Block Payload))
    : gmap string bytes :=
  foldl (λ m b, <[BaseBlock_hid b := serialize b]> m) m bs.

(** No entry of the cache is lost, and the head and the store are the same. *)
Definition grown_from (ch ch' : Chain Payload) : Prop :=
  head ch' = head ch ∧ object_store ch' = object_store ch ∧ cache ch ⊆ cache ch'.

(** The chain [ch2] can supply the committed blocks from place [lo] on:
    its store holds their serializations under their hashes, and its cache
    holds nothing but blocks with the content of such blocks. *)
Definition mirrors (bs : list (Block Payload)) (lo : nat) (ch2 : Chain Payload) : Prop :=
  (∀ (k : nat) b, bs !! k = Some b -> (lo ≤ k)%nat ->
     _backend (object_store ch2) !! BaseBlock_hid b = Some (serialize b))
  ∧ (∀ key d, cache ch2 !! key = Some d ->
       ∃ (k : nat) b, bs !! k = Some b ∧ (lo ≤ k)%nat ∧ key = BaseBlock_hid b
                      ∧ same_content d b).

(** The finger indices go strictly down, starting below [bound]. *)
Fixpoint decreasing (bound : Z) (fs : list (Z * string)) : Prop :=
  match fs with
  | [] => True
  | f :: fs => f.1 < bound ∧ decreasing f.1 fs
  end.
End BuiltVocabulary.

(** * Properties *)

(** ** Hexadecimal encoding is injective *)

Lemma byte_of_hex_digits (b : byte) :
  byte_of_hex (hex_digit (Byte.to_N b / 16)) (hex_digit (Byte.to_N b mod 16)) = b.
Proof. destruct b; vm_compute; reflexivity. Qed.

Lemma unhexlify_hexlify (item : bytes) : unhexlify (hexlify item) = item.
Proof.
  induction item as [|b rest IH]; [reflexivity|].
  cbn [hexlify unhexlify]. now rewrite byte_of_hex_digits, IH.
Qed.

Lemma hexlify_inj (x y : bytes) : hexlify x = hexlify y -> x = y.
Proof.
  intros E. rewrite <- (unhexlify_hexlify x), <- (unhexlify_hexlify y).
  now rewrite E.
Qed.

(** ** The set of finger indices *)

Lemma elem_of_skipchain_indices (index x : Z) :
  x ∈ BaseBlock_skipchain_indices index ↔
  ∃ f : Z, 0 ≤ f ≤ 63 ∧ x = index - 1 - (index - 1) `mod` 2 ^ f.
Proof.
  unfold BaseBlock_skipchain_indices.
  rewrite elem_of_list_to_set, list_elem_of_fmap. split.
  - intros (f & -> & Hf). apply elem_of_seq in Hf.
    exists (Z.of_nat f). split; [lia | reflexivity].
  - intros (f & Hf & ->). exists (Z.to_nat f). split.
    + now rewrite Z2Nat.id by lia.
    + apply elem_of_seq. lia.
Qed.

Lemma predecessor_in_skipchain_indices (index : Z) :
  index - 1 ∈ BaseBlock_skipchain_indices index.
Proof.
  apply elem_of_skipchain_indices. exists 0. split; [lia|].
  rewrite Z.pow_0_r, Z.mod_1_r. lia.
Qed.

(** C5: [skipchain_indices(index)] is exactly the set of the values
    [(index-1) - ((index-1) mod 2^f)] for [f] from 0 to 63, and the value at
    [f = 0] is [index - 1], the immediate predecessor. *)
Theorem skipchain_indices_exact (index : Z) :
  (∀ x : Z, x ∈ BaseBlock_skipchain_indices index ↔
            ∃ f : Z, 0 ≤ f ≤ 63 ∧ x = (index - 1) - ((index - 1) `mod` 2 ^ f))
  ∧ (index - 1) - ((index - 1) `mod` 2 ^ 0) = index - 1
  ∧ index - 1 ∈ BaseBlock_skipchain_indices index.
Proof.
  split; [apply elem_of_skipchain_indices|]. split.
  - rewrite Z.pow_0_r, Z.mod_1_r. lia.
  - apply predecessor_in_skipchain_indices.
Qed.

Lemma skipchain_indices_bounds (index x : Z) :
  1 ≤ index -> x ∈ BaseBlock_skipchain_indices index -> 0 ≤ x ≤ index - 1.
Proof.
  intros Hi (f & Hf & ->)%elem_of_skipchain_indices.
  assert (0 < 2 ^ f) by (apply Z.pow_pos_nonneg; lia).
  pose proof (Z.mod_pos_bound (index - 1) (2 ^ f) ltac:(lia)).
  pose proof (Z.mod_le (index - 1) (2 ^ f) ltac:(lia) ltac:(lia)).
  lia.
Qed.

Lemma skipchain_indices_genesis (x : Z) :
  x ∈ BaseBlock_skipchain_indices 0 ↔ ∃ f : Z, 0 ≤ f ≤ 63 ∧ x = - 2 ^ f.
Proof.
  rewrite elem_of_skipchain_indices.
  assert (E : ∀ f, 0 ≤ f -> 0 - 1 - (0 - 1) `mod` 2 ^ f = - 2 ^ f).
  { intros f Hf. assert (0 < 2 ^ f) by (apply Z.pow_pos_nonneg; lia).
    replace (0 - 1) with (- (1)) by lia.
    rewrite <- (Z.mod_unique (- (1)) (2 ^ f) (-1) (2 ^ f - 1)); lia. }
  split; intros (f & Hf & ->); exists f; (split; [lia|]);
    [apply E | symmetry; apply E]; lia.
Qed.

Section Blocks.
Context {Payload : Type} `{Hasher} `{!BlockCls Payload}.
Implicit Types (b cur : Block Payload) (c : option chain_ref) (p : option Payload).

(** C10: from index 1 on, the members of [skipchain_indices(index)] lie in
    [[0, index-1]] and [index-1] is one of them; at index 0 the set is the
    64 negative values [-2^f], and the genesis case of [make_next_block]
    computes no fingers at all. *)
Theorem skipchain_indices_range (index : Z) c p :
  (1 ≤ index ->
     (∀ x, x ∈ BaseBlock_skipchain_indices index -> 0 ≤ x ≤ index - 1)
     ∧ index - 1 ∈ BaseBlock_skipchain_indices index)
  ∧ (∀ x, x ∈ BaseBlock_skipchain_indices 0 ↔ ∃ f : Z, 0 ≤ f ≤ 63 ∧ x = - 2 ^ f)
  ∧ size (BaseBlock_skipchain_indices 0) = 64%nat
  ∧ fingers (BaseBlock_make_next_block None c p) = []
  ∧ BaseBlock_index (BaseBlock_make_next_block None c p) = 0.
Proof.
  split; [|split; [|split; [|split]]].
  - intros Hi. split.
    + intros x. now apply skipchain_indices_bounds.
    + apply predecessor_in_skipchain_indices.
  - apply skipchain_indices_genesis.
  - vm_compute. reflexivity.
  - reflexivity.
  - reflexivity.
Qed.

(** C4: with a predecessor, the new block has the next index, and its
    fingers are the link to the predecessor followed by the predecessor's
    fingers whose target is in [skipchain_indices] of the new index, in
    the order they had. *)
Theorem make_next_block_fingers cur c p :
  let new_block := BaseBlock_make_next_block (Some cur) c p in
  BaseBlock_index new_block = BaseBlock_index cur + 1
  ∧ fingers new_block =
      (BaseBlock_index cur, BaseBlock_hid cur)
        :: filter (λ f, f.1 ∈ BaseBlock_skipchain_indices (BaseBlock_index cur + 1))
             (fingers cur)
  ∧ (∀ f, f ∈ tail (fingers new_block) ↔
          f ∈ fingers cur
          ∧ f.1 ∈ BaseBlock_skipchain_indices (BaseBlock_index cur + 1))
  ∧ tail (fingers new_block) `sublist_of` fingers cur.
Proof.
  cbn. split; [reflexivity|]. split; [reflexivity|]. split.
  - intros f. now rewrite list_elem_of_filter, (comm and).
  - apply sublist_filter.
Qed.
End Blocks.

(** ** The object store *)

Section StoreProperties.
Context `{Hasher}.

Lemma check_hash_ok (hsh : string) (item : bytes) :
  check_hash hsh item = Return tt ↔ hsh = ascii_hash item.
Proof.
  unfold check_hash. case_bool_decide as E; split; intros E'; done.
Qed.

Lemma check_hash_wrong (hsh : string) (item : bytes) :
  hsh ≠ ascii_hash item ->
  check_hash hsh item = Raise (IntegrityValidationError "Object has wrong hash.").
Proof. intros E. unfold check_hash. now rewrite bool_decide_eq_true_2. Qed.

Lemma store_get_checked (self : DictionaryStore) (key : string) :
  DictionaryStore_get self key true =
    match _backend self !! key with
    | None => Return None
    | Some item =>
        if decide (key = ascii_hash item) then Return (Some item)
        else Raise (IntegrityValidationError "Object has wrong hash.")
    end.
Proof.
  unfold DictionaryStore_get. destruct (_backend self !! key) as [item|]; [|done].
  destruct (decide (key = ascii_hash item)) as [E|E].
  - apply check_hash_ok in E. now rewrite E.
  - now rewrite check_hash_wrong.
Qed.

(** C8: a checked [get] raises an integrity error exactly when bytes are
    stored under the key and do not hash to it; an unknown key gives
    [None] without error, bytes that hash to the key are returned; so once
    the bytes stored under the hash of [old] are replaced by bytes [new]
    with another digest, the checked fetch of that hash raises. *)
Theorem store_get_detects_tampering (self : DictionaryStore) (key : string)
    (old new : bytes) :
  ((∃ msg, DictionaryStore_get self key true = Raise (IntegrityValidationError msg))
     ↔ ∃ item, _backend self !! key = Some item ∧ ascii_hash item ≠ key)
  ∧ (_backend self !! key = None -> DictionaryStore_get self key true = Return None)
  ∧ (∀ item, _backend self !! key = Some item -> ascii_hash item = key ->
             DictionaryStore_get self key true = Return (Some item))
  ∧ (xhash new ≠ xhash old ->
     DictionaryStore_get (mkStore (<[ascii_hash old := new]> (_backend self)))
       (ascii_hash old) true
     = Raise (IntegrityValidationError "Object has wrong hash.")).
Proof.
  rewrite !store_get_checked. split; [|split; [|split]].
  - destruct (_backend self !! key) as [item|] eqn:E.
    + destruct (decide (key = ascii_hash item)) as [Ek|Ek]; split.
      * intros [msg ?]; discriminate.
      * intros (item' & [= <-] & Hne). by destruct Hne.
      * intros _. exists item. split; [done | congruence].
      * intros _. by eexists.
    + split; [intros [msg ?]; discriminate | intros (item & ? & _); discriminate].
  - now intros ->.
  - intros item -> E. now rewrite decide_True.
  - intros Hne. cbn [_backend]. rewrite lookup_insert_eq.
    rewrite decide_False; [done|].
    unfold ascii_hash, binary_hash. intros E%hexlify_inj. by destruct Hne.
Qed.
End StoreProperties.

(** ** Committing a block *)

Section CommitProperties.
Context {Payload : Type} `{Hasher} `{!BlockCls Payload}.
Implicit Types (b : Block Payload) (h : heap Payload).

(** C9: [commit] raises the [ValueError] of a missing chain exactly when
    the block has no chain; with a chain [c] (that the hook leaves in
    place) it runs the hook and then [commit_block] of that chain on the
    block, and raises nothing. *)
Theorem commit_needs_chain b h :
  ((∃ msg, (BaseBlock_commit b h).1 = Raise (ValueError msg)) ↔ _chain b = None)
  ∧ (_chain b = None ->
     BaseBlock_commit b h = (Raise (ValueError "Chain undefined."), h))
  ∧ (∀ c, _chain b = Some c -> _chain (pre_commit b) = Some c ->
       BaseBlock_commit b h =
         (Return (pre_commit b),
          heap_set c (Chain_commit_block (pre_commit b) (h c)).2 h)
       ∧ (Chain_commit_block (pre_commit b) (h c)).1 = Return tt).
Proof.
  unfold BaseBlock_commit. split; [|split].
  - destruct (_chain b) as [c|]; [|by split; [|eexists]].
    split; [|done]. intros [msg E]. exfalso.
    destruct (_chain (pre_commit b)); cbn in E; discriminate.
  - now intros ->.
  - intros c -> ->. split; reflexivity.
Qed.
End CommitProperties.

(** ** Chains built by committing blocks *)

Ltac run_monad :=
  unfold bind, ret, raise, lift, update, get_self, out_of_fuel, on_chain; cbn.

Section ChainProperties.
Context {Payload : Type} `{Hasher} `{!BlockCls Payload}.

Abbreviation Block := (Block Payload).
Abbreviation Chain := (Chain Payload).
Implicit Types (b pred : Block) (ch : Chain) (h : heap Payload)
  (bs : list Block) (c : chain_ref) (ps : list Payload).

Lemma get_block_by_hid_cached ch hid b :
  cache ch !! hid = Some b -> Chain_get_block_by_hid hid ch = (Return (Some b), ch).
Proof. intros E. unfold Chain_get_block_by_hid. run_monad. now rewrite E. Qed.

Lemma head_block_at_head ch prev :
  at_head ch prev -> Chain_head_block ch = (Return prev, ch).
Proof.
  unfold Chain_head_block. destruct prev as [b|]; cbn.
  - intros [Eh Ec]. run_monad. rewrite Eh. now apply get_block_by_hid_cached.
  - intros Eh. run_monad. now rewrite Eh.
Qed.

Lemma heap_set_same h c ch : heap_set c ch h c = ch.
Proof. unfold heap_set. now rewrite decide_True. Qed.

Lemma commit_block_state b ch :
  Chain_commit_block b ch =
    (Return tt,
     mkChain (DictionaryStore_put (object_store ch) (serialize b))
       (<[BaseBlock_hid b := b]> (cache ch)) (Some (BaseBlock_hid b))).
Proof. reflexivity. Qed.

(** One iteration of the loop: the block made from the head, given its
    payload and committed. *)
Lemma commit_payloads_step c p ps h prev :
  hook_keeps_links -> at_head (h c) prev ->
  ∃ b h',
    commit_payloads c (p :: ps) h =
      (let* blocks := commit_payloads c ps in ret (b :: blocks)) h'
    ∧ follows prev b ∧ _chain b = Some c
    ∧ at_head (h' c) (Some b)
    ∧ cache (h' c) = <[BaseBlock_hid b := b]> (cache (h c)).
Proof.
  intros Hook Hat.
  set (made := set_payload p (BaseBlock_make_next_block prev (Some c) None)).
  destruct (Hook made) as (Hi & Hf & Hc).
  exists (pre_commit made),
    (heap_set c (Chain_commit_block (pre_commit made) (h c)).2 (heap_set c (h c) h)).
  split; [|split; [|split; [|split]]].
  - cbn [commit_payloads]. unfold bind at 1, on_chain at 1.
    unfold Chain_make_next_block, bind at 1.
    rewrite (head_block_at_head _ _ Hat). unfold ret at 1.
    fold made. unfold bind at 1, BaseBlock_commit.
    assert (Em : _chain made = Some c) by (subst made; now destruct prev).
    rewrite Em, Hc, Em. unfold bind at 1, on_chain.
    rewrite heap_set_same, commit_block_state. reflexivity.
  - unfold follows. rewrite Hi, Hf. subst made. now destruct prev.
  - rewrite Hc. subst made. now destruct prev.
  - rewrite heap_set_same, commit_block_state. cbn.
    split; [reflexivity | apply lookup_insert_eq].
  - now rewrite heap_set_same, commit_block_state.
Qed.

Lemma last_from_cons prev b bs : last_from prev (b :: bs) = last_from (Some b) bs.
Proof. unfold last_from. rewrite last_cons. now destruct (last bs). Qed.

(** The loop never raises, and what it leaves behind. *)
Lemma commit_payloads_spec c ps :
  hook_keeps_links -> ∀ h prev, at_head (h c) prev ->
  ∃ bs h',
    commit_payloads c ps h = (Return bs, h')
    ∧ length bs = length ps
    ∧ linked_from prev bs
    ∧ at_head (h' c) (last_from prev bs)
    ∧ cache (h' c) = cache_after (cache (h c)) bs.
Proof.
  intros Hook. induction ps as [|p ps IH]; intros h prev Hat.
  - exists [], h. split; [reflexivity|]. split; [reflexivity|]. split; [exact I|].
    split; [exact Hat | reflexivity].
  - destruct (commit_payloads_step c p ps h prev Hook Hat)
      as (b & h1 & E & Hfol & _ & Hat1 & Hc1).
    destruct (IH h1 (Some b) Hat1) as (bs & h' & E' & Hlen & Hlink & Hat' & Hc').
    exists (b :: bs), h'. rewrite E. unfold bind at 1. rewrite E'.
    split; [reflexivity|]. split; [cbn; lia|]. split; [by split|].
    split; [now rewrite last_from_cons|].
    rewrite Hc', Hc1. reflexivity.
Qed.

Lemma linked_from_lookup prev bs (k : nat) b :
  linked_from prev bs -> bs !! k = Some b ->
  follows (match k with O => prev | S k' => bs !! k' end) b
  ∧ BaseBlock_index b = next_index prev + Z.of_nat k.
Proof.
  revert prev k. induction bs as [|b0 bs IH]; intros prev k Hl Hk; [done|].
  destruct Hl as [Hf Hl]. destruct k as [|k]; cbn in Hk.
  - injection Hk as ->. split; [done|]. unfold next_index. destruct Hf as [-> _]. lia.
  - destruct (IH (Some b0) k Hl Hk) as [Hfol Hidx]. split.
    + destruct k; [exact Hfol|]. exact Hfol.
    + rewrite Hidx. unfold next_index at 1. cbn.
      destruct Hf as [-> _]. fold (next_index prev). lia.
Qed.

Lemma linked_index bs (k : nat) b :
  linked_from None bs -> bs !! k = Some b -> BaseBlock_index b = Z.of_nat k.
Proof.
  intros Hl Hk. destruct (linked_from_lookup None bs k b Hl Hk) as [_ ->].
  unfold next_index. cbn. lia.
Qed.

Lemma linked_fingers bs (k : nat) b pred :
  linked_from None bs -> bs !! S k = Some b -> bs !! k = Some pred ->
  fingers b =
    (BaseBlock_index pred, BaseBlock_hid pred)
      :: filter (λ f, f.1 ∈ BaseBlock_skipchain_indices (BaseBlock_index b))
           (fingers pred).
Proof.
  intros Hl Hk Hp.
  destruct (linked_from_lookup None bs (S k) b Hl Hk) as [[Hi Hf] _].
  rewrite Hp in Hi, Hf. rewrite Hf, Hi. reflexivity.
Qed.

Lemma elem_of_finger_targets_filter (S : gset Z) (fs : list (Z * string)) (x : Z) :
  x ∈ (list_to_set (fst <$> filter (λ f, f.1 ∈ S) fs) : gset Z)
  ↔ x ∈ S ∧ x ∈ (list_to_set (fst <$> fs) : gset Z).
Proof.
  rewrite !elem_of_list_to_set, !list_elem_of_fmap. split.
  - intros (f & -> & [Hs Hf]%list_elem_of_filter). eauto.
  - intros (Hs & f & -> & Hf). exists f. split; [done|].
    now apply list_elem_of_filter.
Qed.

Lemma committed_blocks c ps h0 h bs :
  hook_keeps_links -> head (h0 c) = None ->
  commit_payloads c ps h0 = (Return bs, h) ->
  length bs = length ps ∧ linked_from None bs
  ∧ at_head (h c) (last bs) ∧ cache (h c) = cache_after (cache (h0 c)) bs.
Proof.
  intros Hook Hh E.
  destruct (commit_payloads_spec c ps Hook h0 None Hh) as (bs' & h' & E' & Hrest).
  rewrite E in E'. injection E' as <- <-.
  unfold last_from in Hrest. now destruct (last bs).
Qed.

(** C3: in a chain built by the loop, a committed block of index above 0
    comes right after the committed block [pred] of the index before, and
    its fingers point exactly to the indices of [skipchain_indices] of its
    index that are [pred]'s index or a target of [pred]'s fingers: that
    is, to [pred] and to the targets of [pred] in that set. *)
Theorem committed_finger_targets c ps h0 h bs b :
  hook_keeps_links -> head (h0 c) = None ->
  commit_payloads c ps h0 = (Return bs, h) ->
  b ∈ bs -> 0 < BaseBlock_index b ->
  ∃ (k : nat) pred,
    bs !! k = Some pred ∧ bs !! S k = Some b
    ∧ BaseBlock_index b = Z.of_nat (S k)
    ∧ BaseBlock_index pred = BaseBlock_index b - 1
    ∧ finger_targets b =
        BaseBlock_skipchain_indices (BaseBlock_index b)
          ∩ ({[BaseBlock_index pred]} ∪ finger_targets pred)
    ∧ finger_targets b =
        {[BaseBlock_index b - 1]}
          ∪ (finger_targets pred ∩ BaseBlock_skipchain_indices (BaseBlock_index b)).
Proof.
  intros Hook Hh E Hb Hpos.
  destruct (committed_blocks c ps h0 h bs Hook Hh E) as (_ & Hl & _).
  apply list_elem_of_lookup in Hb as [j Hj].
  pose proof (linked_index bs j b Hl Hj) as Hi.
  destruct j as [|k]; [lia|].
  destruct (lookup_lt_is_Some_2 bs k) as [pred Hp].
  { apply lookup_lt_Some in Hj. lia. }
  pose proof (linked_index bs k pred Hl Hp) as Hip.
  pose proof (linked_fingers bs k b pred Hl Hj Hp) as Hf.
  exists k, pred. split; [done|]. split; [done|]. split; [done|].
  split; [lia|].
  assert (Hmem : ∀ x, x ∈ finger_targets b ↔
            x = BaseBlock_index pred
            ∨ (x ∈ BaseBlock_skipchain_indices (BaseBlock_index b)
               ∧ x ∈ finger_targets pred)).
  { intros x. unfold finger_targets at 1. rewrite Hf. cbn [fmap list_fmap fst].
    rewrite list_to_set_cons, elem_of_union, elem_of_singleton.
    now rewrite elem_of_finger_targets_filter. }
  assert (Hpred : BaseBlock_index pred ∈ BaseBlock_skipchain_indices (BaseBlock_index b)).
  { replace (BaseBlock_index pred) with (BaseBlock_index b - 1) by lia.
    apply predecessor_in_skipchain_indices. }
  split; apply set_eq; intros x; rewrite Hmem.
  - rewrite elem_of_intersection, elem_of_union, elem_of_singleton.
    split; [intros [->|[? ?]]; auto | intros [? [->|?]]; auto].
  - rewrite elem_of_union, elem_of_singleton, elem_of_intersection.
    replace (BaseBlock_index b - 1) with (BaseBlock_index pred) by lia. tauto.
Qed.

(** *** Lookups in the cache of a built chain *)

Lemma cache_after_cons m b bs :
  cache_after m (b :: bs) = cache_after (<[BaseBlock_hid b := b]> m) bs.
Proof. reflexivity. Qed.

Lemma cache_after_notin m bs key :
  key ∉ BaseBlock_hid <$> bs -> cache_after m bs !! key = m !! key.
Proof.
  revert m. induction bs as [|b bs IH]; intros m Hk; [reflexivity|].
  rewrite fmap_cons in Hk. apply not_elem_of_cons in Hk as [Hne Hk].
  rewrite cache_after_cons, (IH _ Hk). now apply lookup_insert_ne.
Qed.

Lemma cache_after_lookup m bs (k : nat) b :
  NoDup (BaseBlock_hid <$> bs) -> bs !! k = Some b ->
  cache_after m bs !! BaseBlock_hid b = Some b.
Proof.
  revert m k. induction bs as [|b0 bs IH]; intros m k Hnd Hk; [done|].
  rewrite fmap_cons in Hnd. apply NoDup_cons in Hnd as [Hfresh Hnd].
  rewrite cache_after_cons. destruct k as [|k]; cbn in Hk.
  - injection Hk as ->. rewrite cache_after_notin by done.
    apply lookup_insert_eq.
  - now apply (IH _ k).
Qed.

(** *** Evidence: assigning a new key appends *)

Lemma od_set_fresh {V} (k : string) (v : V) (d : list (string * V)) :
  k ∉ d.*1 -> od_set k v d = d ++ [(k, v)].
Proof.
  induction d as [|[k' v'] d IH]; intros Hk; [reflexivity|].
  cbn in Hk. apply not_elem_of_cons in Hk as [Hne Hk].
  cbn. rewrite decide_False by done. now rewrite IH.
Qed.

Lemma entries_keys bs : (entries bs).*1 = BaseBlock_hid <$> bs.
Proof. unfold entries. rewrite <- list_fmap_compose. reflexivity. Qed.

Lemma od_set_visited bs (k : nat) b :
  NoDup (BaseBlock_hid <$> bs) -> bs !! k = Some b ->
  od_set (BaseBlock_hid b) b (entries (reverse (drop (S k) bs)))
  = entries (reverse (drop k bs)).
Proof.
  intros Hnd Hk. rewrite (drop_S bs b k Hk), reverse_cons.
  assert (E : entries (reverse (drop (S k) bs) ++ [b])
              = entries (reverse (drop (S k) bs)) ++ [(BaseBlock_hid b, b)])
    by (unfold entries; now rewrite fmap_app).
  rewrite E. apply od_set_fresh.
  rewrite entries_keys, fmap_reverse, elem_of_reverse.
  rewrite <- (take_drop_middle bs k b Hk), fmap_app in Hnd.
  apply NoDup_app in Hnd as (_ & _ & Hnd). cbn in Hnd.
  now apply NoDup_cons in Hnd as [Hfresh _].
Qed.

(** *** The traversal of a built chain *)

Lemma first_finger_predecessor bs (k : nat) b pred (i : Z) :
  linked_from None bs -> bs !! S k = Some b -> bs !! k = Some pred ->
  i ≤ Z.of_nat k ->
  first_finger i b = Return (BaseBlock_index pred, BaseBlock_hid pred).
Proof.
  intros Hl Hk Hp Hi. unfold first_finger.
  rewrite (linked_fingers bs k b pred Hl Hk Hp).
  rewrite filter_cons_True; [reflexivity|].
  cbn. rewrite (linked_index bs k pred Hl Hp). exact Hi.
Qed.

Lemma walk_built bs ch (i : nat) target (re : bool) :
  linked_from None bs -> NoDup (BaseBlock_hid <$> bs) ->
  (∀ (k : nat) b, bs !! k = Some b -> cache ch !! BaseBlock_hid b = Some b) ->
  bs !! i = Some target ->
  ∀ (n k : nat) b (fuel : nat),
    bs !! k = Some b -> k = (i + n)%nat -> (n < fuel)%nat ->
    Chain_walk fuel (Z.of_nat i) re (BaseBlock_hid b) (Some b) (visited re bs (S k)) ch
    = (Return (found re target (visited re bs i)), ch).
Proof.
  intros Hl Hnd Hc Ht. induction n as [|n IH]; intros k b fuel Hk -> Hfuel;
    (destruct fuel as [|fuel]; [lia|]); cbn [Chain_walk].
  - rewrite Nat.add_0_r in Hk |- *. assert (b = target) as -> by congruence.
    rewrite bool_decide_eq_true_2 by (symmetry; exact (linked_index bs i target Hl Ht)).
    unfold found, visited. destruct re; [|reflexivity].
    now rewrite (od_set_visited bs i target Hnd Ht).
  - rewrite bool_decide_eq_false_2
      by (rewrite (linked_index bs _ b Hl Hk); lia).
    replace (i + S n)%nat with (S (i + n)) in * by lia.
    destruct (lookup_lt_is_Some_2 bs (i + n)) as [pred Hp].
    { apply lookup_lt_Some in Hk. lia. }
    unfold bind at 1, lift at 1.
    rewrite (first_finger_predecessor bs (i + n) b pred _ Hl Hk Hp) by lia.
    cbn [snd]. unfold bind at 1.
    rewrite (get_block_by_hid_cached ch _ pred (Hc _ _ Hp)).
    assert (Ev : (if re then od_set (BaseBlock_hid b) b (visited re bs (S (S (i + n))))
                  else visited re bs (S (S (i + n))))
                 = visited re bs (S (i + n))).
    { unfold visited. destruct re; [|reflexivity].
      now apply od_set_visited. }
    rewrite Ev. apply (IH (i + n)%nat pred fuel Hp); lia.
Qed.

Lemma get_block_by_index_built bs ch (i : nat) target (re : bool) (fuel : nat) :
  linked_from None bs -> NoDup (BaseBlock_hid <$> bs) ->
  (∀ (k : nat) b, bs !! k = Some b -> cache ch !! BaseBlock_hid b = Some b) ->
  at_head ch (last bs) ->
  bs !! i = Some target -> (length bs - i ≤ fuel)%nat ->
  Chain_get_block_by_index fuel (Z.of_nat i) re ch
  = (Return (found re target (visited re bs i)), ch).
Proof.
  intros Hl Hnd Hc Hat Ht Hfuel.
  pose proof (lookup_lt_Some _ _ _ Ht) as Hlen.
  destruct (last bs) as [lb|] eqn:Elast; [|apply last_None in Elast; subst; done].
  pose proof Elast as Hlb. rewrite last_lookup in Hlb.
  pose proof (linked_index bs _ lb Hl Hlb) as Hidx.
  pose proof (head_block_at_head ch (Some lb) Hat) as Hhb.
  destruct Hat as [Hhead _].
  unfold Chain_get_block_by_index.
  unfold bind at 1, get_self at 1. rewrite Hhead.
  unfold bind at 1. rewrite Hhb.
  rewrite bool_decide_eq_true_2 by lia. cbn [negb].
  unfold bind at 1, get_self at 1. rewrite Hhead.
  unfold bind at 1. rewrite Hhb.
  assert (Ev : [] = visited re bs (S (pred (length bs)))).
  { unfold visited. destruct re; [|reflexivity].
    rewrite drop_ge by lia. reflexivity. }
  rewrite Ev.
  apply (walk_built bs ch i target re Hl Hnd Hc Ht (pred (length bs) - i) _ lb fuel Hlb);
    lia.
Qed.

(** C1: in a chain built by committing [N] blocks whose hashes are
    pairwise different, [get_block_by_index(i)] returns, for every [i]
    from 0 to [N-1], a block of index [i]: the one committed at place [i].
    [N] units of fuel are enough. *)
Theorem get_block_by_index_finds_index c ps h0 h bs (i : Z) :
  hook_keeps_links -> head (h0 c) = None ->
  commit_payloads c ps h0 = (Return bs, h) ->
  NoDup (BaseBlock_hid <$> bs) ->
  0 ≤ i < Z.of_nat (length ps) ->
  ∃ b, BaseBlock_index b = i ∧ bs !! Z.to_nat i = Some b
       ∧ ∀ fuel, (length ps ≤ fuel)%nat ->
           Chain_get_block_by_index fuel i false (h c) = (Return (Found b), h c).
Proof.
  intros Hook Hh E Hnd Hi.
  destruct (committed_blocks c ps h0 h bs Hook Hh E) as (Hlen & Hl & Hat & Hc).
  destruct (lookup_lt_is_Some_2 bs (Z.to_nat i)) as [b Hb]; [lia|].
  exists b. split; [rewrite (linked_index bs _ b Hl Hb); lia|]. split; [done|].
  intros fuel Hfuel. rewrite <- (Z2Nat.id i) at 1 by lia.
  apply (get_block_by_index_built bs (h c) (Z.to_nat i) b false fuel); try done; [|lia].
  intros k b' Hk. rewrite Hc. now apply (cache_after_lookup _ bs k).
Qed.

Lemma visited_lookup bs (i j : nat) key b :
  linked_from None bs ->
  entries (reverse (drop i bs)) !! j = Some (key, b) ->
  BaseBlock_index b = Z.of_nat (length bs) - 1 - Z.of_nat j
  ∧ (i ≤ length bs - 1 - j)%nat ∧ (j < length bs - i)%nat.
Proof.
  intros Hl Hj. unfold entries in Hj. rewrite list_lookup_fmap in Hj.
  destruct (reverse (drop i bs) !! j) as [b'|] eqn:E; [|done].
  cbn in Hj. injection Hj as _ ->.
  pose proof (lookup_lt_Some _ _ _ E) as Hlt.
  rewrite length_reverse, length_drop in Hlt.
  rewrite reverse_lookup in E by (rewrite length_drop; lia).
  rewrite length_drop, lookup_drop in E.
  rewrite (linked_index bs _ b Hl E). lia.
Qed.

(** C7: on a chain built by committing [N] blocks whose hashes are
    pairwise different, the loop of [get_block_by_index] ends for every
    index [i] from 0 to [N-1]: it returns once it has [N - i] units of
    fuel, one per iteration.  The evidence lists the blocks the loop
    visits, in order: from one to the next the index goes strictly down
    and never below [i], and the last one is the block returned, of index
    [i].  One hop, from any committed block above [i]: the finger chosen
    leads to a cached block of smaller index, not below [i]. *)
Theorem traversal_terminates c ps h0 h bs (i : Z) :
  hook_keeps_links -> head (h0 c) = None ->
  commit_payloads c ps h0 = (Return bs, h) ->
  NoDup (BaseBlock_hid <$> bs) ->
  0 ≤ i < Z.of_nat (length ps) ->
  ∃ b evidence,
    (∀ fuel, (length ps - Z.to_nat i ≤ fuel)%nat ->
       Chain_get_block_by_index fuel i true (h c)
         = (Return (FoundWithEvidence b evidence), h c)
       ∧ Chain_get_block_by_index fuel i false (h c) = (Return (Found b), h c))
    ∧ length evidence = (length ps - Z.to_nat i)%nat
    ∧ (∀ (j : nat) x y, evidence !! j = Some x -> evidence !! S j = Some y ->
         i ≤ BaseBlock_index y.2 < BaseBlock_index x.2)
    ∧ (∀ (j : nat) x, evidence !! j = Some x ->
         i ≤ BaseBlock_index x.2
         ∧ BaseBlock_index x.2 = Z.of_nat (length ps) - 1 - Z.of_nat j)
    ∧ BaseBlock_index b = i
    ∧ last evidence = Some (BaseBlock_hid b, b)
    ∧ (∀ cur, cur ∈ bs -> i < BaseBlock_index cur ->
         ∃ fh next,
           first_finger i cur = Return fh
           ∧ Chain_get_block_by_hid fh.2 (h c) = (Return (Some next), h c)
           ∧ i ≤ BaseBlock_index next < BaseBlock_index cur).
Proof.
  intros Hook Hh E Hnd Hi.
  destruct (committed_blocks c ps h0 h bs Hook Hh E) as (Hlen & Hl & Hat & Hc).
  destruct (lookup_lt_is_Some_2 bs (Z.to_nat i)) as [b Hb]; [lia|].
  assert (Hcache : ∀ (k : nat) b', bs !! k = Some b' ->
            cache (h c) !! BaseBlock_hid b' = Some b').
  { intros k b' Hk. rewrite Hc. now apply (cache_after_lookup _ bs k). }
  exists b, (entries (reverse (drop (Z.to_nat i) bs))).
  split; [|split; [|split; [|split; [|split; [|split]]]]].
  - intros fuel Hfuel. rewrite <- (Z2Nat.id i) at 1 3 by lia.
    split.
    + apply (get_block_by_index_built bs (h c) (Z.to_nat i) b true fuel);
        try done; lia.
    + apply (get_block_by_index_built bs (h c) (Z.to_nat i) b false fuel);
        try done; lia.
  - unfold entries. rewrite length_fmap, length_reverse, length_drop. lia.
  - intros j [kx x] [ky y] Hx Hy. cbn.
    destruct (visited_lookup bs _ _ _ _ Hl Hx) as (Ex & _ & _).
    destruct (visited_lookup bs _ _ _ _ Hl Hy) as (Ey & _ & Hlt).
    lia.
  - intros j [kx x] Hx. cbn.
    destruct (visited_lookup bs _ _ _ _ Hl Hx) as (Ex & _ & Hlt). lia.
  - rewrite (linked_index bs _ b Hl Hb). lia.
  - rewrite (drop_S bs b _ Hb), reverse_cons. unfold entries.
    rewrite fmap_app. cbn. apply last_snoc.
  - intros cur [j Hj]%list_elem_of_lookup Hcur.
    pose proof (linked_index bs j cur Hl Hj) as Hij.
    destruct j as [|k]; [lia|].
    destruct (lookup_lt_is_Some_2 bs k) as [pred Hp].
    { apply lookup_lt_Some in Hj. lia. }
    pose proof (linked_index bs k pred Hl Hp) as Hik.
    exists (BaseBlock_index pred, BaseBlock_hid pred), pred.
    split; [apply (first_finger_predecessor bs k); try done; lia|].
    split; [apply get_block_by_hid_cached, (Hcache k pred Hp) | lia].
Qed.

(** [len(chain)] is the number of committed blocks. *)
Lemma built_chain_len c ps h0 h bs :
  hook_keeps_links -> head (h0 c) = None ->
  commit_payloads c ps h0 = (Return bs, h) ->
  Chain_len (h c) = (Return (Z.of_nat (length ps)), h c).
Proof.
  intros Hook Hh E.
  destruct (committed_blocks c ps h0 h bs Hook Hh E) as (Hlen & Hl & Hat & _).
  unfold Chain_len, bind. rewrite (head_block_at_head _ _ Hat).
  destruct (last bs) as [lb|] eqn:Elast.
  - pose proof Elast as Hlb. rewrite last_lookup in Hlb.
    rewrite (linked_index bs _ lb Hl Hlb).
    apply lookup_lt_Some in Hlb. unfold ret. do 2 f_equal. lia.
  - apply last_None in Elast. subst bs. destruct ps; [reflexivity | discriminate].
Qed.

(** *** The range check *)

Lemma get_block_by_hid_then_cached ch hid b ch' :
  Chain_get_block_by_hid hid ch = (Return (Some b), ch') ->
  cache ch' !! hid = Some b ∧ head ch' = head ch.
Proof.
  unfold Chain_get_block_by_hid. run_monad.
  destruct (cache ch !! hid) as [b0|] eqn:Ec.
  - intros [= -> <-]. done.
  - destruct (DictionaryStore_get (object_store ch) hid true) as [[raw|]| |]; try done.
    destruct (deserialize raw) as [b0| |]; try done.
    intros [= -> <-]. cbn. split; [apply lookup_insert_eq | done].
Qed.

Lemma head_block_then_cached ch b ch' :
  Chain_head_block ch = (Return (Some b), ch') ->
  ∃ hid, head ch' = Some hid ∧ cache ch' !! hid = Some b.
Proof.
  unfold Chain_head_block. run_monad. destruct (head ch) as [hid|] eqn:Eh; [|done].
  intros [Hc Hh]%get_block_by_hid_then_cached. exists hid. split; congruence.
Qed.

Lemma head_block_again ch b ch' :
  Chain_head_block ch = (Return (Some b), ch') ->
  Chain_head_block ch' = (Return (Some b), ch').
Proof.
  intros (hid & Hh & Hc)%head_block_then_cached.
  unfold Chain_head_block. run_monad. rewrite Hh.
  now apply get_block_by_hid_cached.
Qed.

Lemma get_block_by_index_beyond_head ch hb ch' (fuel : nat) (i : Z) (re : bool) :
  Chain_head_block ch = (Return (Some hb), ch') ->
  ¬ (0 ≤ i ≤ BaseBlock_index hb) ->
  Chain_get_block_by_index fuel i re ch
  = (Raise (ValueError (beyond_head_msg i (BaseBlock_index hb))), ch').
Proof.
  intros Hhb Hi. pose proof (head_block_again ch hb ch' Hhb) as Hhb'.
  unfold Chain_get_block_by_index.
  unfold bind at 1, get_self at 1.
  destruct (head ch) as [hid|] eqn:Eh.
  - unfold bind at 1. rewrite Hhb.
    rewrite bool_decide_eq_false_2 by done. cbn [negb].
    unfold bind at 1. now rewrite Hhb'.
  - unfold Chain_head_block in Hhb. revert Hhb. run_monad. now rewrite Eh.
Qed.

(** C2, as the code has it: a chain without a head answers [None] to every
    index and raises nothing; on a chain whose head block is [hb], an
    index outside [[0, hb.index]] raises the [ValueError] of the range
    check; so on a chain built by committing [N >= 1] blocks every index
    outside [[0, N-1]], [-1] and [N] among them, raises it. *)
Theorem get_block_by_index_range_check (fuel : nat) (i : Z) (re : bool) :
  (∀ ch, head ch = None ->
     Chain_get_block_by_index fuel i re ch = (Return NoBlock, ch))
  ∧ (∀ ch hb ch', Chain_head_block ch = (Return (Some hb), ch') ->
       ¬ (0 ≤ i ≤ BaseBlock_index hb) ->
       Chain_get_block_by_index fuel i re ch
       = (Raise (ValueError (beyond_head_msg i (BaseBlock_index hb))), ch'))
  ∧ (∀ c ps h0 h bs,
       hook_keeps_links -> head (h0 c) = None ->
       commit_payloads c ps h0 = (Return bs, h) -> ps ≠ [] ->
       ¬ (0 ≤ i ≤ Z.of_nat (length ps) - 1) ->
       Chain_get_block_by_index fuel i re (h c)
       = (Raise (ValueError (beyond_head_msg i (Z.of_nat (length ps) - 1))), h c)).
Proof.
  split; [|split].
  - intros ch Eh. unfold Chain_get_block_by_index. run_monad. now rewrite Eh.
  - intros ch hb ch'. apply get_block_by_index_beyond_head.
  - intros c ps h0 h bs Hook Hh E Hps Hi.
    destruct (committed_blocks c ps h0 h bs Hook Hh E) as (Hlen & Hl & Hat & _).
    destruct (last bs) as [lb|] eqn:Elast.
    + pose proof Elast as Hlb. rewrite last_lookup in Hlb.
      pose proof (linked_index bs _ lb Hl Hlb) as Hidx.
      assert (Hn : length ps ≠ 0%nat) by (now destruct ps).
      replace (Z.of_nat (length ps) - 1) with (BaseBlock_index lb) in * by lia.
      apply get_block_by_index_beyond_head; [|done].
      now apply head_block_at_head.
    + apply last_None in Elast. subst bs. now destruct ps.
Qed.

(** *** Replaying a lookup from its evidence *)

Lemma od_set_elem {V} (k : string) (v : V) d kv :
  kv ∈ od_set k v d -> kv = (k, v) ∨ kv ∈ d.
Proof.
  induction d as [|[k' v'] d IH]; cbn.
  - intros ->%list_elem_of_singleton. now left.
  - destruct (decide (k = k')) as [->|Hne].
    + intros [->|Hin]%elem_of_cons; [now left | right; now apply list_elem_of_further].
    + intros [->|Hin]%elem_of_cons; [right; apply list_elem_of_here|].
      destruct (IH Hin) as [->|?]; [now left | right; now apply list_elem_of_further].
Qed.

Lemma od_set_keys {V} (k : string) (v : V) d k' :
  k' = k ∨ k' ∈ d.*1 -> k' ∈ (od_set k v d).*1.
Proof.
  induction d as [|[k0 v0] d IH]; cbn [od_set].
  - rewrite !fmap_cons, fmap_nil, elem_of_nil. cbn.
    intros [->|[]]. apply list_elem_of_here.
  - destruct (decide (k = k0)) as [->|Hne]; rewrite !fmap_cons, !elem_of_cons; cbn.
    + tauto.
    + intros [->|[->|Hin]]; [right; apply IH; now left | now left|].
      right. apply IH. now right.
Qed.

Lemma agree_od_set G ch ev key b :
  G key -> cache ch !! key = Some b -> agree G ch ev ->
  agree G ch (od_set key b ev).
Proof.
  intros Hg Hc Hev kv [->|Hin]%od_set_elem; [done | now apply Hev].
Qed.

Lemma first_finger_elem (i : Z) b fh :
  first_finger i b = Return fh -> fh ∈ fingers b.
Proof.
  unfold first_finger.
  destruct (filter _ (fingers b)) as [|fh' l] eqn:E; [done|].
  intros [= ->].
  assert (Hin : fh ∈ filter (λ fh : Z * string, i ≤ fh.1) (fingers b))
    by (rewrite E; apply list_elem_of_here).
  now apply list_elem_of_filter in Hin as [_ Hin].
Qed.

Lemma first_finger_same_fingers (i : Z) (d b : Block) :
  fingers d = fingers b -> first_finger i d = first_finger i b.
Proof. unfold first_finger. now intros ->. Qed.

(** The traversal of a closed cache: the cache is never left, and the
    evidence keeps what it had and gains the key it starts from. *)
Lemma walk_evidence G ch (i : Z) (fuel : nat) :
  closed G ch ->
  ∀ key b ev r ev' ch',
    G key -> cache ch !! key = Some b -> agree G ch ev ->
    Chain_walk fuel i true key (Some b) ev ch = (Return (FoundWithEvidence r ev'), ch') ->
    ch' = ch ∧ agree G ch ev' ∧ key ∈ ev'.*1 ∧ (∀ k, k ∈ ev.*1 -> k ∈ ev'.*1).
Proof.
  intros Hcl. induction fuel as [|fuel IH]; intros key b ev r ev' ch' Hg Hc Hev;
    cbn [Chain_walk]; [done|].
  case_bool_decide as Hi.
  - intros [= <- <- <-]. split; [done|]. split; [now apply agree_od_set|].
    split; [apply od_set_keys; now left | intros k Hk; apply od_set_keys; now right].
  - unfold bind at 1, lift at 1.
    destruct (first_finger i b) as [fh| |] eqn:Ef; try done.
    destruct (Hcl key Hg) as (b0 & Hc0 & _ & Hfs).
    assert (b0 = b) as -> by congruence.
    pose proof (Hfs fh (first_finger_elem i b fh Ef)) as Hg'.
    destruct (Hcl fh.2 Hg') as (b' & Hc' & _ & _).
    unfold bind at 1. rewrite (get_block_by_hid_cached ch _ b' Hc').
    intros Hw.
    destruct (IH fh.2 b' _ r ev' ch' Hg' Hc' (agree_od_set G ch ev key b Hg Hc Hev) Hw)
      as (-> & Hag & Hk & Hsub).
    split; [done|]. split; [done|].
    split; [apply Hsub, od_set_keys; now left|].
    intros k Hk'. apply Hsub, od_set_keys. now right.
Qed.

Lemma serialized_evidence_snoc (ev : list (string * Block)) kv :
  serialized_evidence (ev ++ [kv]) = <[kv.1 := serialize kv.2]> (serialized_evidence ev).
Proof. unfold serialized_evidence. now rewrite foldl_snoc. Qed.

Lemma serialized_evidence_lookup G ch ev key b :
  agree G ch ev -> key ∈ ev.*1 -> cache ch !! key = Some b ->
  serialized_evidence ev !! key = Some (serialize b).
Proof.
  induction ev as [|kv ev IH] using rev_ind; intros Hag Hk Hc.
  - now apply elem_of_nil in Hk.
  - rewrite serialized_evidence_snoc.
    assert (Hag' : agree G ch ev).
    { intros kv' Hin. apply Hag, elem_of_app. now left. }
    destruct (decide (kv.1 = key)) as [E|Hne].
    + rewrite E, lookup_insert_eq.
      destruct (Hag kv) as [_ Hkv]; [apply elem_of_app; right; apply list_elem_of_here|].
      rewrite E in Hkv. congruence.
    + rewrite lookup_insert_ne by done. apply IH; [done| |done].
      rewrite fmap_app, elem_of_app in Hk. destruct Hk as [Hk|Hk]; [done|].
      cbn in Hk. apply list_elem_of_singleton in Hk. congruence.
Qed.

Lemma serialized_evidence_integrity G ch ev key raw :
  closed G ch -> agree G ch ev ->
  serialized_evidence ev !! key = Some raw -> check_hash key raw = Return tt.
Proof.
  intros Hcl. induction ev as [|kv ev IH] using rev_ind; intros Hag Hk.
  - done.
  - rewrite serialized_evidence_snoc in Hk.
    destruct (decide (kv.1 = key)) as [E|Hne].
    + rewrite E, lookup_insert_eq in Hk. injection Hk as <-.
      destruct (Hag kv) as [Hg Hkv]; [apply elem_of_app; right; apply list_elem_of_here|].
      destruct (Hcl _ Hg) as (b & Hb & Hhid & _).
      apply check_hash_ok. rewrite <- E, <- Hhid.
      assert (b = kv.2) as -> by congruence. reflexivity.
    + rewrite lookup_insert_ne in Hk by done. apply IH; [|done].
      intros kv' Hin. apply Hag, elem_of_app. now left.
Qed.

Lemma get_block_by_hid_replay G ch ch2 key b :
  codec_roundtrip -> closed G ch -> G key -> cache ch !! key = Some b ->
  _backend (object_store ch2) !! key = Some (serialize b) ->
  cache_follows ch ch2 ->
  ∃ d ch2',
    Chain_get_block_by_hid key ch2 = (Return (Some d), ch2')
    ∧ same_content d b ∧ cache_follows ch ch2'
    ∧ object_store ch2' = object_store ch2 ∧ head ch2' = head ch2.
Proof.
  intros Hcodec Hcl Hg Hc Hst Hfol.
  unfold Chain_get_block_by_hid. unfold bind at 1, get_self at 1.
  destruct (cache ch2 !! key) as [d|] eqn:Ec2.
  - exists d, ch2. destruct (Hfol key d Ec2) as (b0 & Hb0 & Hsame).
    assert (b0 = b) as -> by congruence. done.
  - unfold bind at 1, lift at 1. rewrite store_get_checked, Hst.
    destruct (Hcl key Hg) as (b0 & Hb0 & Hhid & _).
    assert (b0 = b) as -> by congruence.
    rewrite decide_True by (now rewrite <- Hhid).
    destruct (Hcodec b) as (d & Hd & Hsame).
    unfold bind at 1, lift at 1. rewrite Hd. run_monad.
    eexists d, _. split; [reflexivity|]. split; [done|]. split; [|done].
    intros k d'. cbn. destruct (decide (key = k)) as [<-|Hne].
    + rewrite lookup_insert_eq. intros [= <-]. eauto.
    + rewrite lookup_insert_ne by done. apply Hfol.
Qed.

Lemma walk_replay G ch evF (i : Z) (fuel : nat) r :
  codec_roundtrip -> closed G ch ->
  ∀ key b d ev ch2,
    G key -> cache ch !! key = Some b -> same_content d b -> agree G ch ev ->
    Chain_walk fuel i true key (Some b) ev ch = (Return (FoundWithEvidence r evF), ch) ->
    _backend (object_store ch2) = serialized_evidence evF ->
    cache_follows ch ch2 ->
    ∃ d' ch2',
      Chain_walk fuel i false key (Some d) [] ch2 = (Return (Found d'), ch2')
      ∧ same_content d' r.
Proof.
  intros Hcodec Hcl. induction fuel as [|fuel IH];
    intros key b d ev ch2 Hg Hc Hsame Hev Hw Hst Hfol; cbn [Chain_walk] in *; [done|].
  destruct Hsame as (Hi & Hf & Hs). rewrite Hi.
  case_bool_decide as Hidx.
  - injection Hw as <- _. exists d, ch2. done.
  - revert Hw. unfold bind at 1 3, lift at 1 2.
    rewrite (first_finger_same_fingers i d b Hf).
    destruct (first_finger i b) as [fh| |] eqn:Ef; try done.
    destruct (Hcl key Hg) as (b0 & Hc0 & _ & Hfs).
    assert (b0 = b) as -> by congruence.
    pose proof (Hfs fh (first_finger_elem i b fh Ef)) as Hg'.
    destruct (Hcl fh.2 Hg') as (b' & Hc' & _ & _).
    unfold bind at 1. rewrite (get_block_by_hid_cached ch _ b' Hc').
    intros Hw.
    destruct (walk_evidence G ch i fuel Hcl fh.2 b' _ r evF ch Hg' Hc'
                (agree_od_set G ch ev key b Hg Hc Hev) Hw) as (_ & Hag & Hk & _).
    destruct (get_block_by_hid_replay G ch ch2 fh.2 b' Hcodec Hcl Hg' Hc')
      as (d' & ch2' & Eg & Hsame' & Hfol' & Hst' & _); [|done|].
    { rewrite Hst. now apply (serialized_evidence_lookup G ch). }
    unfold bind at 1. rewrite Eg.
    apply (IH fh.2 b' d' _ ch2' Hg' Hc' Hsame'
             (agree_od_set G ch ev key b Hg Hc Hev) Hw); [|done].
    now rewrite Hst'.
Qed.

(** Past the range check, [get_block_by_index] is the loop started at the
    head. *)
Lemma get_block_by_index_in_range ch hid hb ch1 (fuel : nat) (i : Z) (re : bool) :
  head ch = Some hid -> Chain_head_block ch = (Return (Some hb), ch1) ->
  0 ≤ i ≤ BaseBlock_index hb ->
  Chain_get_block_by_index fuel i re ch = Chain_walk fuel i re hid (Some hb) [] ch1.
Proof.
  intros Hh Hhb Hi. pose proof (head_block_again ch hb ch1 Hhb) as Hhb'.
  destruct (head_block_then_cached ch hb ch1 Hhb) as (hid' & Hh1 & _).
  assert (hid' = hid) as ->.
  { revert Hhb. unfold Chain_head_block. run_monad. rewrite Hh.
    intros [_ E]%get_block_by_hid_then_cached. congruence. }
  unfold Chain_get_block_by_index.
  unfold bind at 1, get_self at 1. rewrite Hh.
  unfold bind at 1. rewrite Hhb.
  rewrite bool_decide_eq_true_2 by done. cbn [negb].
  unfold bind at 1, get_self at 1. rewrite Hh1.
  unfold bind at 1. now rewrite Hhb'.
Qed.

Lemma get_block_by_index_replay G ch (fuel : nat) (i : Z) r evF ch' :
  codec_roundtrip -> closed G ch -> (∀ hid, head ch = Some hid -> G hid) ->
  Chain_get_block_by_index fuel i true ch = (Return (FoundWithEvidence r evF), ch') ->
  agree G ch evF
  ∧ ∃ d ch2,
      Chain_get_block_by_index fuel i false (replay_chain (head ch) evF)
        = (Return (Found d), ch2)
      ∧ same_content d r.
Proof.
  intros Hcodec Hcl Hhead Hrun.
  destruct (head ch) as [hid|] eqn:Eh.
  2:{ revert Hrun. unfold Chain_get_block_by_index. run_monad. now rewrite Eh. }
  pose proof (Hhead hid eq_refl) as Hg.
  destruct (Hcl hid Hg) as (hb & Hc & Hhid & _).
  assert (Hhb : Chain_head_block ch = (Return (Some hb), ch)).
  { unfold Chain_head_block. run_monad. rewrite Eh. now apply get_block_by_hid_cached. }
  destruct (decide (0 ≤ i ≤ BaseBlock_index hb)) as [Hi|Hi].
  2:{ rewrite (get_block_by_index_beyond_head ch hb ch fuel i true Hhb Hi) in Hrun.
      discriminate. }
  rewrite (get_block_by_index_in_range ch hid hb ch fuel i true Eh Hhb Hi) in Hrun.
  assert (Hnil : agree G ch []) by (intros kv Hin; now apply elem_of_nil in Hin).
  destruct (walk_evidence G ch i fuel Hcl hid hb [] r evF ch' Hg Hc Hnil Hrun)
    as (-> & Hag & Hk & _).
  split; [done|].
  set (ch2 := replay_chain (Some hid) evF).
  destruct (get_block_by_hid_replay G ch ch2 hid hb Hcodec Hcl Hg Hc)
    as (d & ch2' & Eg & Hsame & Hfol & Hst & Hh2).
  { cbn. now apply (serialized_evidence_lookup G ch). }
  { intros k d0 Hk0. cbn in Hk0. now rewrite lookup_empty in Hk0. }
  assert (Hhb2 : Chain_head_block ch2 = (Return (Some d), ch2')).
  { unfold Chain_head_block. run_monad. exact Eg. }
  destruct Hsame as (Hsi & Hsf & Hss).
  rewrite (get_block_by_index_in_range ch2 hid d ch2' fuel i false eq_refl Hhb2)
    by (rewrite Hsi; exact Hi).
  apply (walk_replay G ch evF i fuel r Hcodec Hcl hid hb d [] ch2' Hg Hc); try done.
  now rewrite Hst.
Qed.

(** *** The cache of a built chain is closed *)

Lemma cache_after_snoc m bs b :
  cache_after m (bs ++ [b]) = <[BaseBlock_hid b := b]> (cache_after m bs).
Proof. unfold cache_after. now rewrite foldl_snoc. Qed.

Lemma cache_after_committed m bs key :
  key ∈ BaseBlock_hid <$> bs ->
  ∃ b, cache_after m bs !! key = Some b ∧ BaseBlock_hid b = key ∧ b ∈ bs.
Proof.
  induction bs as [|b bs IH] using rev_ind; intros Hk.
  - now apply elem_of_nil in Hk.
  - rewrite cache_after_snoc. destruct (decide (BaseBlock_hid b = key)) as [E|Hne].
    + exists b. rewrite E, lookup_insert_eq. split; [done|]. split; [done|].
      apply elem_of_app. right. apply list_elem_of_here.
    + rewrite fmap_app, elem_of_app in Hk. destruct Hk as [Hk|Hk].
      * destruct (IH Hk) as (b' & Hb' & Hh' & Hin). exists b'.
        rewrite lookup_insert_ne by done. split; [done|]. split; [done|].
        apply elem_of_app. now left.
      * cbn in Hk. apply list_elem_of_singleton in Hk. congruence.
Qed.

(** The fingers of committed blocks name committed blocks. *)
Lemma linked_from_fingers (K : list string) prev bs :
  (∀ p, prev = Some p ->
     BaseBlock_hid p ∈ K ∧ ∀ fh, fh ∈ fingers p -> fh.2 ∈ K) ->
  linked_from prev bs ->
  ∀ b fh, b ∈ bs -> fh ∈ fingers b -> fh.2 ∈ K ++ (BaseBlock_hid <$> bs).
Proof.
  revert K prev. induction bs as [|b0 bs IH]; intros K prev Hprev Hl b fh Hb Hfh.
  - now apply elem_of_nil in Hb.
  - destruct Hl as [[_ Hf0] Hl].
    assert (H0 : ∀ fh0, fh0 ∈ fingers b0 -> fh0.2 ∈ K).
    { intros fh0. rewrite Hf0. destruct prev as [p|]; cbn.
      - destruct (Hprev p eq_refl) as [Hp Hpf].
        intros [->|Hin]%elem_of_cons; [exact Hp|].
        apply list_elem_of_filter in Hin as [_ Hin]. now apply Hpf.
      - intros Hin. now apply elem_of_nil in Hin. }
    apply elem_of_cons in Hb as [->|Hb].
    + apply elem_of_app. left. now apply H0.
    + assert (Hin : fh.2 ∈ (K ++ [BaseBlock_hid b0]) ++ (BaseBlock_hid <$> bs)).
      { apply (IH (K ++ [BaseBlock_hid b0]) (Some b0)) with (b := b); try done.
        intros p [= <-]. split.
        - apply elem_of_app. right. apply list_elem_of_here.
        - intros fh0 Hfh0. apply elem_of_app. left. now apply H0. }
      now rewrite <- app_assoc in Hin.
Qed.

Lemma built_cache_closed c ps h0 h bs :
  hook_keeps_links -> head (h0 c) = None ->
  commit_payloads c ps h0 = (Return bs, h) ->
  closed (λ key, key ∈ BaseBlock_hid <$> bs) (h c)
  ∧ ∀ hid, head (h c) = Some hid -> hid ∈ BaseBlock_hid <$> bs.
Proof.
  intros Hook Hh E.
  destruct (committed_blocks c ps h0 h bs Hook Hh E) as (_ & Hl & Hat & Hc).
  split.
  - intros key Hk. destruct (cache_after_committed (cache (h0 c)) bs key Hk)
      as (b & Hb & Hhid & Hin).
    exists b. rewrite Hc. split; [done|]. split; [done|].
    intros fh Hfh.
    apply (linked_from_fingers [] None bs) with (b := b); try done.
  - intros hid Ehid. destruct (last bs) as [lb|] eqn:Elast; cbn in Hat.
    + destruct Hat as [Hhd _]. assert (hid = BaseBlock_hid lb) as -> by congruence.
      apply list_elem_of_fmap. exists lb. split; [done|].
      now apply last_Some_elem_of.
    + congruence.
Qed.

(** C6: take a chain built by committing blocks, and a call of
    [get_block_by_index(idx, return_evidence=True)] that returns a block
    and its evidence.  On a new chain with the same head, an empty cache
    and a store that holds the serialized evidence and nothing else,
    [get_block_by_index(idx)] returns, with the same fuel, a block with
    the same content hash (and index); every entry of that store passes
    the integrity check, as every fetch of the replay did. *)
Theorem evidence_replay c ps h0 h bs (fuel : nat) (idx : Z) block evidence ch' :
  hook_keeps_links -> codec_roundtrip -> head (h0 c) = None ->
  commit_payloads c ps h0 = (Return bs, h) ->
  Chain_get_block_by_index fuel idx true (h c)
    = (Return (FoundWithEvidence block evidence), ch') ->
  ∃ block' ch2,
    Chain_get_block_by_index fuel idx false (replay_chain (head (h c)) evidence)
      = (Return (Found block'), ch2)
    ∧ BaseBlock_hid block' = BaseBlock_hid block
    ∧ BaseBlock_index block' = BaseBlock_index block
    ∧ (∀ key raw, serialized_evidence evidence !! key = Some raw ->
         check_hash key raw = Return tt).
Proof.
  intros Hook Hcodec Hh E Hrun.
  destruct (built_cache_closed c ps h0 h bs Hook Hh E) as [Hcl Hhead].
  destruct (get_block_by_index_replay _ (h c) fuel idx block evidence ch'
              Hcodec Hcl Hhead Hrun) as (Hag & d & ch2 & Erun & Hi & _ & Hs).
  exists d, ch2. split; [done|]. split; [|split; [done|]].
  - unfold BaseBlock_hid. now rewrite Hs.
  - intros key raw. exact (serialized_evidence_integrity _ (h c) _ key raw Hcl Hag).
Qed.
End ChainProperties.

(** * Further properties of the code *)

(** ** Hashes and the store *)

Lemma hexlify_length (item : bytes) :
  String.length (hexlify item) = (2 * length item)%nat.
Proof. induction item as [|b rest IH]; cbn [hexlify String.length length]; lia. Qed.

Section HashProperties.
Context `{Hasher}.

(** X1: two items have the same [ascii_hash] exactly when they have the
    same [binary_hash], and the hexadecimal form is twice as long as the
    digest. *)
Theorem ascii_hash_digest (x y : bytes) :
  (ascii_hash x = ascii_hash y ↔ binary_hash x = binary_hash y)
  ∧ String.length (ascii_hash x) = (2 * length (binary_hash x))%nat.
Proof.
  split; [|apply hexlify_length].
  unfold ascii_hash. split; [apply hexlify_inj | now intros ->].
Qed.

(** X2: [check_hash] of the hash of [a] accepts the item [b] exactly when
    both have the same digest, so it accepts [a] itself; otherwise it
    raises [IntegrityValidationError('Object has wrong hash.')]. *)
Theorem check_hash_digest (a b : bytes) :
  (check_hash (ascii_hash a) b = Return tt ↔ xhash a = xhash b)
  ∧ check_hash (ascii_hash a) a = Return tt
  ∧ (xhash a ≠ xhash b ->
     check_hash (ascii_hash a) b
     = Raise (IntegrityValidationError "Object has wrong hash.")).
Proof.
  split; [|split].
  - rewrite check_hash_ok. apply (ascii_hash_digest a b).
  - now apply check_hash_ok.
  - intros Hne. apply check_hash_wrong. intros E. apply Hne.
    now apply (ascii_hash_digest a b).
Qed.

(** X3: what [put] stores is returned by [get] under its hash, checked or
    not, and putting the same bytes again changes nothing. *)
Theorem store_put_get (self : DictionaryStore) (item : bytes) (check_integrity : bool) :
  DictionaryStore_get (DictionaryStore_put self item) (ascii_hash item) check_integrity
  = Return (Some item)
  ∧ DictionaryStore_put (DictionaryStore_put self item) item = DictionaryStore_put self item.
Proof.
  split.
  - unfold DictionaryStore_get, DictionaryStore_put. cbn [_backend].
    rewrite lookup_insert_eq. destruct check_integrity; [|reflexivity].
    now rewrite (proj2 (check_hash_ok _ _) eq_refl).
  - unfold DictionaryStore_put. cbn [_backend]. now rewrite insert_insert_eq.
Qed.

(** X4: [put] leaves every key other than the hash of the new bytes as it
    was: [get] answers the same there, raising included. *)
Theorem store_put_other_keys (self : DictionaryStore) (item : bytes) (key : string)
    (check_integrity : bool) :
  key ≠ ascii_hash item ->
  DictionaryStore_get (DictionaryStore_put self item) key check_integrity
  = DictionaryStore_get self key check_integrity.
Proof.
  intros Hne. unfold DictionaryStore_get, DictionaryStore_put. cbn [_backend].
  now rewrite lookup_insert_ne.
Qed.

Lemma content_addressed_put (self : DictionaryStore) (item : bytes) :
  content_addressed self -> content_addressed (DictionaryStore_put self item).
Proof.
  intros Hs key item'. unfold DictionaryStore_put. cbn [_backend].
  destruct (decide (ascii_hash item = key)) as [<-|Hne].
  - rewrite lookup_insert_eq. now intros [= <-].
  - rewrite lookup_insert_ne by done. apply Hs.
Qed.

Lemma content_addressed_get (self : DictionaryStore) (key : string) :
  content_addressed self ->
  DictionaryStore_get self key true = Return (_backend self !! key).
Proof.
  intros Hs. rewrite store_get_checked.
  destruct (_backend self !! key) as [item|] eqn:E; [|reflexivity].
  now rewrite decide_True by (now apply Hs).
Qed.

Lemma content_addressed_filled (items : list bytes) :
  content_addressed (foldl DictionaryStore_put (mkStore ∅) items).
Proof.
  induction items as [|item items IH] using rev_ind.
  - intros key item. cbn. now rewrite lookup_empty.
  - rewrite foldl_snoc. now apply content_addressed_put.
Qed.

(** X5: a store over an empty dictionary filled by [put] alone keeps every
    entry under the hash of its bytes; a checked [get] never raises on it
    and answers what the dictionary holds; and every item put is found
    under its hash, as bytes of that hash. *)
Theorem store_filled_by_put (items : list bytes) (key : string) :
  let store := foldl DictionaryStore_put (mkStore ∅) items in
  content_addressed store
  ∧ DictionaryStore_get store key true = Return (_backend store !! key)
  ∧ (∀ item, item ∈ items ->
       ∃ item', DictionaryStore_get store (ascii_hash item) true = Return (Some item')
                ∧ ascii_hash item' = ascii_hash item).
Proof.
  cbn zeta. split; [apply content_addressed_filled|].
  split; [apply content_addressed_get, content_addressed_filled|].
  intros item Hin.
  rewrite (content_addressed_get _ _ (content_addressed_filled items)).
  induction items as [|item0 items IH] using rev_ind.
  - now apply elem_of_nil in Hin.
  - rewrite foldl_snoc. unfold DictionaryStore_put at 1. cbn [_backend].
    destruct (decide (ascii_hash item0 = ascii_hash item)) as [E|Hne].
    + rewrite E, lookup_insert_eq. eauto.
    + rewrite lookup_insert_ne by done. apply IH.
      apply elem_of_app in Hin as [Hin|Hin]; [done|].
      apply list_elem_of_singleton in Hin. congruence.
Qed.
End HashProperties.

(** ** Blocks and finger indices, further *)

Lemma skipchain_indices_size (index : Z) :
  (size (BaseBlock_skipchain_indices index) ≤ 64)%nat.
Proof.
  unfold BaseBlock_skipchain_indices.
  assert (Hle : ∀ l : list Z, (size (list_to_set l : gset Z) ≤ length l)%nat).
  { induction l as [|x l IH]; [done|].
    rewrite list_to_set_cons, size_union_alt, size_singleton. cbn [length].
    pose proof (subseteq_size (list_to_set l ∖ {[x]}) (list_to_set l : gset Z)
                  (subseteq_difference_l _ _ _ (reflexivity _))).
    lia. }
  etransitivity; [apply Hle|]. now rewrite length_fmap, length_seq.
Qed.

(** X7: [skipchain_indices(index)] has at most 64 members, and from index 1
    on it holds 0, the genesis index, exactly up to index [2^63]: beyond,
    the 64 levels no longer reach it. *)
Theorem skipchain_indices_genesis_link (index : Z) :
  (size (BaseBlock_skipchain_indices index) ≤ 64)%nat
  ∧ (1 ≤ index -> (0 ∈ BaseBlock_skipchain_indices index ↔ index ≤ 2 ^ 63)).
Proof.
  split; [apply skipchain_indices_size|].
  - intros Hi. rewrite elem_of_skipchain_indices. split.
    + intros (f & Hf & E).
      assert (0 < 2 ^ f) by (apply Z.pow_pos_nonneg; lia).
      pose proof (Z.mod_pos_bound (index - 1) (2 ^ f) ltac:(lia)).
      assert (2 ^ f ≤ 2 ^ 63) by (apply Z.pow_le_mono_r; lia).
      lia.
    + intros Hle. exists 63. split; [lia|].
      rewrite Z.mod_small by lia. lia.
Qed.

Section BlockEquality.
Context {Payload : Type} `{Hasher} `{!BlockCls Payload}.
Implicit Types (a b c : Block Payload).

(** X6: [__eq__] compares the digests of the serializations; it is
    reflexive, symmetric and transitive. *)
Theorem block_eq_by_digest a b c :
  (BaseBlock_eq a b = true ↔ xhash (serialize a) = xhash (serialize b))
  ∧ BaseBlock_eq a a = true
  ∧ BaseBlock_eq a b = BaseBlock_eq b a
  ∧ (BaseBlock_eq a b = true -> BaseBlock_eq b c = true -> BaseBlock_eq a c = true).
Proof.
  unfold BaseBlock_eq. split; [|split; [|split]].
  - rewrite bool_decide_eq_true. apply (ascii_hash_digest (serialize a) (serialize b)).
  - now apply bool_decide_eq_true.
  - apply bool_decide_ext. split; congruence.
  - rewrite !bool_decide_eq_true. congruence.
Qed.
End BlockEquality.

(** ** Reading blocks by hash *)

Section ReadProperties.
Context {Payload : Type} `{Hasher} `{!BlockCls Payload}.

Abbreviation Block := (Block Payload).
Abbreviation Chain := (Chain Payload).
Implicit Types (b d : Block) (ch : Chain) (bs : list Block).

(** X8: the cache is trusted: a cached block is returned as it is and the
    chain is left alone, whatever the store holds under that hash, also
    bytes written over the stored ones. *)
Theorem get_block_by_hid_trusts_cache ch (hid : string) b (raw : bytes) :
  cache ch !! hid = Some b ->
  Chain_get_block_by_hid hid ch = (Return (Some b), ch)
  ∧ Chain_get_block_by_hid hid (overwrite_backend hid raw ch)
    = (Return (Some b), overwrite_backend hid raw ch).
Proof.
  intros Hc. split; now apply get_block_by_hid_cached.
Qed.

(** X9: a hash that misses the cache: with nothing stored under it the
    answer is [None]; with bytes that do not hash to it,
    [IntegrityValidationError] is raised; either way the chain is left as
    it was, nothing is cached. *)
Theorem get_block_by_hid_miss ch (hid : string) :
  cache ch !! hid = None ->
  (_backend (object_store ch) !! hid = None ->
     Chain_get_block_by_hid hid ch = (Return None, ch))
  ∧ (∀ raw, _backend (object_store ch) !! hid = Some raw -> ascii_hash raw ≠ hid ->
       Chain_get_block_by_hid hid ch
       = (Raise (IntegrityValidationError "Object has wrong hash."), ch)).
Proof.
  intros Hc. unfold Chain_get_block_by_hid. run_monad. rewrite Hc, store_get_checked.
  split.
  - now intros ->.
  - intros raw -> Hne. now rewrite decide_False by congruence.
Qed.

(** X10: a hash that misses the cache while the store holds bytes of that
    hash which decode to a block: the block is returned and cached under
    the hash, head and store stay; asking again gives the same block and
    changes nothing more. *)
Theorem get_block_by_hid_fetches_once ch (hid : string) (raw : bytes) b :
  cache ch !! hid = None ->
  _backend (object_store ch) !! hid = Some raw -> ascii_hash raw = hid ->
  deserialize raw = Return b ->
  let ch' := mkChain (object_store ch) (<[hid := b]> (cache ch)) (head ch) in
  Chain_get_block_by_hid hid ch = (Return (Some b), ch')
  ∧ Chain_get_block_by_hid hid ch' = (Return (Some b), ch').
Proof.
  intros Hc Hst Hh Hd ch'. split.
  - unfold Chain_get_block_by_hid. run_monad.
    rewrite Hc, store_get_checked, Hst, decide_True by done. now rewrite Hd.
  - apply get_block_by_hid_cached. apply lookup_insert_eq.
Qed.

Lemma grown_from_refl ch : grown_from ch ch.
Proof. done. Qed.

Lemma grown_from_trans ch1 ch2 ch3 :
  grown_from ch1 ch2 -> grown_from ch2 ch3 -> grown_from ch1 ch3.
Proof.
  intros (Hh1 & Hs1 & Hc1) (Hh2 & Hs2 & Hc2).
  split; [congruence|]. split; [congruence|]. now transitivity (cache ch2).
Qed.

Lemma get_block_by_hid_grown ch (hid : string) :
  grown_from ch (Chain_get_block_by_hid hid ch).2.
Proof.
  unfold Chain_get_block_by_hid. run_monad.
  destruct (cache ch !! hid) as [b|] eqn:Hc; [apply grown_from_refl|].
  destruct (DictionaryStore_get (object_store ch) hid true) as [[raw|]| |];
    try apply grown_from_refl.
  destruct (deserialize raw) as [b| |]; try apply grown_from_refl.
  cbn. split; [done|]. split; [done|]. now apply insert_subseteq.
Qed.

Lemma head_block_grown ch : grown_from ch (Chain_head_block ch).2.
Proof.
  unfold Chain_head_block. run_monad.
  destruct (head ch); [apply get_block_by_hid_grown | apply grown_from_refl].
Qed.

Lemma walk_grown (fuel : nat) (i : Z) (re : bool) :
  ∀ (hid : string) (cur : option Block) ev ch,
    grown_from ch (Chain_walk fuel i re hid cur ev ch).2.
Proof.
  induction fuel as [|fuel IH]; intros hid cur ev ch;
    (destruct cur as [cur|]; [|apply grown_from_refl]); cbn [Chain_walk];
    [apply grown_from_refl|].
  case_bool_decide; [destruct re; apply grown_from_refl|].
  unfold bind at 1, lift at 1.
  destruct (first_finger i cur) as [fh| |]; try apply grown_from_refl.
  unfold bind at 1.
  pose proof (get_block_by_hid_grown ch fh.2) as Hg.
  destruct (Chain_get_block_by_hid fh.2 ch) as [[next| |] ch1];
    cbn [snd] in Hg |- *; try exact Hg.
  eapply grown_from_trans; [exact Hg | apply IH].
Qed.

(** X11: reading never moves the head nor touches the store, and never
    drops a cached block: this holds for [get_block_by_hid], [head_block],
    [__len__], [make_next_block] and [get_block_by_index], on every chain
    and whatever they return or raise. *)
Theorem reads_only_grow_cache ch (fuel : nat) (i : Z) (re : bool) (hid : string)
    (c : chain_ref) (p : option Payload) :
  grown_from ch (Chain_get_block_by_hid hid ch).2
  ∧ grown_from ch (Chain_head_block ch).2
  ∧ grown_from ch (Chain_len ch).2
  ∧ grown_from ch (Chain_make_next_block c p ch).2
  ∧ grown_from ch (Chain_get_block_by_index fuel i re ch).2.
Proof.
  split; [apply get_block_by_hid_grown|]. split; [apply head_block_grown|].
  split; [|split].
  - unfold Chain_len, bind. pose proof (head_block_grown ch) as Hg.
    destruct (Chain_head_block ch) as [[[hb|]| |] ch1]; exact Hg.
  - unfold Chain_make_next_block, bind. pose proof (head_block_grown ch) as Hg.
    destruct (Chain_head_block ch) as [[hb| |] ch1]; exact Hg.
  - unfold Chain_get_block_by_index. unfold bind at 1, get_self at 1.
    destruct (head ch) as [hd|]; [|apply grown_from_refl].
    unfold bind at 1. pose proof (head_block_grown ch) as Hg.
    destruct (Chain_head_block ch) as [[[hb|]| |] ch1]; cbn [snd] in Hg; try exact Hg.
    destruct (negb _).
    + unfold bind at 1. pose proof (head_block_grown ch1) as Hg1.
      destruct (Chain_head_block ch1) as [[[hb1|]| |] ch2]; cbn [snd] in Hg1 |- *;
        eapply grown_from_trans; eauto.
    + unfold bind at 1, get_self at 1.
      destruct (head ch1) as [hd1|]; [|exact Hg].
      unfold bind at 1. pose proof (head_block_grown ch1) as Hg1.
      destruct (Chain_head_block ch1) as [[cur| |] ch2]; cbn [snd] in Hg1 |- *;
        try (eapply grown_from_trans; eauto; fail).
      eapply grown_from_trans; [exact Hg|].
      eapply grown_from_trans; [exact Hg1 | apply walk_grown].
Qed.
End ReadProperties.

(** ** The fingers of a built chain *)

Lemma skipchain_indices_step (k x : Z) :
  2 ≤ k -> x ∈ BaseBlock_skipchain_indices k ->
  x = k - 1 ∨ x ∈ BaseBlock_skipchain_indices (k - 1).
Proof.
  intros Hk (f & Hf & ->)%elem_of_skipchain_indices.
  assert (Hpos : 0 < 2 ^ f) by (apply Z.pow_pos_nonneg; lia).
  pose proof (Z.mod_pos_bound (k - 1) (2 ^ f) Hpos) as Hr.
  destruct (decide ((k - 1) `mod` 2 ^ f = 0)) as [E|Hne]; [left; lia|].
  right. apply elem_of_skipchain_indices. exists f. split; [done|].
  pose proof (Z.div_mod (k - 1) (2 ^ f) ltac:(lia)) as Hdm.
  rewrite <- (Z.mod_unique (k - 1 - 1) (2 ^ f) ((k - 1) / 2 ^ f) ((k - 1) `mod` 2 ^ f - 1));
    lia.
Qed.

Lemma skipchain_indices_one (x : Z) : x ∈ BaseBlock_skipchain_indices 1 ↔ x = 0.
Proof.
  rewrite elem_of_skipchain_indices. split.
  - intros (f & Hf & ->). replace (1 - 1) with 0 by lia.
    rewrite Z.mod_0_l by (apply Z.pow_nonzero; lia). lia.
  - intros ->. exists 0. split; [lia | reflexivity].
Qed.

Lemma decreasing_weaken (bound bound' : Z) fs :
  bound ≤ bound' -> decreasing bound fs -> decreasing bound' fs.
Proof. destruct fs as [|f fs]; [done|]. intros Hle [Hf Hd]. split; [lia | done]. Qed.

Lemma decreasing_filter (P : Z * string -> Prop) `{!∀ f, Decision (P f)} (bound : Z) fs :
  decreasing bound fs -> decreasing bound (filter P fs).
Proof.
  revert bound. induction fs as [|f fs IH]; intros bound; [done|].
  intros [Hf Hd]. rewrite filter_cons. destruct (decide (P f)).
  - split; [done | now apply IH].
  - apply IH. apply (decreasing_weaken f.1); [lia | done].
Qed.

Lemma decreasing_below (bound : Z) fs f :
  decreasing bound fs -> f ∈ fs -> f.1 < bound.
Proof.
  revert bound. induction fs as [|f0 fs IH]; intros bound Hd Hin.
  - now apply elem_of_nil in Hin.
  - destruct Hd as [Hf Hd]. apply elem_of_cons in Hin as [->|Hin]; [done|].
    pose proof (IH _ Hd Hin). lia.
Qed.

Lemma decreasing_lookup (bound : Z) fs (j1 j2 : nat) f1 f2 :
  decreasing bound fs -> (j1 < j2)%nat ->
  fs !! j1 = Some f1 -> fs !! j2 = Some f2 -> f2.1 < f1.1.
Proof.
  revert bound j1 j2. induction fs as [|f fs IH]; intros bound j1 j2 Hd Hlt H1 H2; [done|].
  destruct Hd as [Hf Hd]. destruct j2 as [|j2]; [lia|]. cbn in H2.
  destruct j1 as [|j1]; cbn in H1.
  - injection H1 as ->. apply (decreasing_below _ fs); [done|].
    apply list_elem_of_lookup. eauto.
  - apply (IH f.1 j1 j2); try done. lia.
Qed.

Lemma decreasing_NoDup (bound : Z) fs : decreasing bound fs -> NoDup (fs.*1).
Proof.
  revert bound. induction fs as [|f fs IH]; intros bound Hd; [constructor|].
  destruct Hd as [Hf Hd]. rewrite fmap_cons. apply NoDup_cons. split; [|now apply (IH f.1)].
  intros (f' & E & Hin)%list_elem_of_fmap.
  pose proof (decreasing_below _ _ _ Hd Hin). lia.
Qed.

Section FingerProperties.
Context {Payload : Type} `{Hasher} `{!BlockCls Payload}.

Abbreviation Block := (Block Payload).
Abbreviation Chain := (Chain Payload).
Implicit Types (b pred : Block) (ch : Chain) (h : heap Payload)
  (bs : list Block) (c : chain_ref) (ps : list Payload).

Lemma linked_genesis bs b :
  linked_from None bs -> bs !! 0%nat = Some b -> fingers b = [].
Proof.
  intros Hl Hb. destruct (linked_from_lookup None bs 0 b Hl Hb) as [[_ Hf] _].
  exact Hf.
Qed.

Lemma linked_decreasing bs (k : nat) b :
  linked_from None bs -> bs !! k = Some b -> decreasing (Z.of_nat k) (fingers b).
Proof.
  intros Hl. revert b. induction k as [|k IH]; intros b Hb.
  - now rewrite (linked_genesis bs b Hl Hb).
  - destruct (lookup_lt_is_Some_2 bs k) as [pred Hp].
    { apply lookup_lt_Some in Hb. lia. }
    rewrite (linked_fingers bs k b pred Hl Hb Hp). cbn [decreasing fst].
    rewrite (linked_index bs k pred Hl Hp). split; [lia|].
    apply decreasing_filter. exact (IH pred Hp).
Qed.

Lemma linked_hash_links bs (k : nat) b fh :
  linked_from None bs -> bs !! k = Some b -> fh ∈ fingers b ->
  ∃ (j : nat) target,
    fh.1 = Z.of_nat j ∧ bs !! j = Some target ∧ fh.2 = BaseBlock_hid target.
Proof.
  intros Hl. revert b fh. induction k as [|k IH]; intros b fh Hb Hin.
  - rewrite (linked_genesis bs b Hl Hb) in Hin. now apply elem_of_nil in Hin.
  - destruct (lookup_lt_is_Some_2 bs k) as [pred Hp].
    { apply lookup_lt_Some in Hb. lia. }
    rewrite (linked_fingers bs k b pred Hl Hb Hp) in Hin.
    apply elem_of_cons in Hin as [->|Hin].
    + exists k, pred. cbn. now rewrite (linked_index bs k pred Hl Hp).
    + apply list_elem_of_filter in Hin as [_ Hin]. exact (IH pred fh Hp Hin).
Qed.

Lemma linked_targets_step bs (k : nat) b pred (x : Z) :
  linked_from None bs -> bs !! S k = Some b -> bs !! k = Some pred ->
  x ∈ finger_targets b ↔
  x = Z.of_nat k
  ∨ (x ∈ BaseBlock_skipchain_indices (Z.of_nat (S k)) ∧ x ∈ finger_targets pred).
Proof.
  intros Hl Hb Hp. unfold finger_targets.
  rewrite (linked_fingers bs k b pred Hl Hb Hp), fmap_cons, list_to_set_cons,
    elem_of_union, elem_of_singleton, elem_of_finger_targets_filter.
  rewrite (linked_index bs _ b Hl Hb), (linked_index bs _ pred Hl Hp). reflexivity.
Qed.

Lemma linked_targets bs (k : nat) b :
  linked_from None bs -> bs !! S k = Some b ->
  finger_targets b = BaseBlock_skipchain_indices (Z.of_nat (S k)).
Proof.
  intros Hl. revert b. induction k as [|k IH]; intros b Hb.
  - destruct (lookup_lt_is_Some_2 bs 0) as [pred Hp].
    { apply lookup_lt_Some in Hb. lia. }
    apply set_eq. intros x. rewrite (linked_targets_step bs 0 b pred x Hl Hb Hp).
    unfold finger_targets. rewrite (linked_genesis bs pred Hl Hp), fmap_nil, list_to_set_nil.
    change (Z.of_nat 1) with 1. change (Z.of_nat 0) with 0.
    rewrite skipchain_indices_one, elem_of_empty. tauto.
  - destruct (lookup_lt_is_Some_2 bs (S k)) as [pred Hp].
    { apply lookup_lt_Some in Hb. lia. }
    apply set_eq. intros x. rewrite (linked_targets_step bs (S k) b pred x Hl Hb Hp).
    rewrite (IH pred Hp). split.
    + intros [->|[Hx _]]; [|done].
      replace (Z.of_nat (S k)) with (Z.of_nat (S (S k)) - 1) by lia.
      apply predecessor_in_skipchain_indices.
    + intros Hx.
      destruct (skipchain_indices_step (Z.of_nat (S (S k))) x ltac:(lia) Hx) as [->|Hx'].
      * left. lia.
      * right. split; [done|].
        now replace (Z.of_nat (S (S k)) - 1) with (Z.of_nat (S k)) in Hx' by lia.
Qed.

(** X12: in a chain built by the loop, the fingers of the committed block
    of index [k >= 1] point exactly to the indices of [skipchain_indices(k)]. *)
Theorem committed_fingers_are_skipchain_indices c ps h0 h bs b :
  hook_keeps_links -> head (h0 c) = None ->
  commit_payloads c ps h0 = (Return bs, h) ->
  b ∈ bs -> 1 ≤ BaseBlock_index b ->
  finger_targets b = BaseBlock_skipchain_indices (BaseBlock_index b).
Proof.
  intros Hook Hh E [k Hb]%list_elem_of_lookup Hi.
  destruct (committed_blocks c ps h0 h bs Hook Hh E) as (_ & Hl & _).
  pose proof (linked_index bs k b Hl Hb) as Hk.
  destruct k as [|k]; [lia|]. rewrite Hk. now apply (linked_targets bs).
Qed.

(** X13: in a chain built by the loop, each finger [(f, hsh)] of a
    committed block of index [k] is a true link: [0 <= f < k] and [hsh] is
    the hash of the block committed at index [f].  Along the list the
    indices go strictly down, the direct predecessor first, so no index
    comes twice and there are at most 64 fingers; the genesis block has
    none. *)
Theorem committed_fingers_link_back c ps h0 h bs (k : nat) b :
  hook_keeps_links -> head (h0 c) = None ->
  commit_payloads c ps h0 = (Return bs, h) ->
  bs !! k = Some b ->
  (∀ fh, fh ∈ fingers b ->
     0 ≤ fh.1 < Z.of_nat k
     ∧ ∃ target, bs !! Z.to_nat fh.1 = Some target ∧ fh.2 = BaseBlock_hid target)
  ∧ (∀ (j1 j2 : nat) f1 f2, (j1 < j2)%nat ->
       fingers b !! j1 = Some f1 -> fingers b !! j2 = Some f2 -> f2.1 < f1.1)
  ∧ (∀ (j : nat) pred, k = S j -> bs !! j = Some pred ->
       fingers b !! 0%nat = Some (BaseBlock_index pred, BaseBlock_hid pred))
  ∧ (length (fingers b) ≤ 64)%nat
  ∧ (k = 0%nat -> fingers b = []).
Proof.
  intros Hook Hh E Hb.
  destruct (committed_blocks c ps h0 h bs Hook Hh E) as (_ & Hl & _).
  pose proof (linked_decreasing bs k b Hl Hb) as Hd.
  split; [|split; [|split; [|split]]].
  - intros fh Hin.
    destruct (linked_hash_links bs k b fh Hl Hb Hin) as (j & target & Hj & Ht & Hh').
    pose proof (decreasing_below _ _ _ Hd Hin).
    split; [lia|]. exists target. rewrite Hj, Nat2Z.id. done.
  - intros j1 j2 f1 f2 Hlt H1 H2. exact (decreasing_lookup _ _ j1 j2 f1 f2 Hd Hlt H1 H2).
  - intros j pred -> Hp. now rewrite (linked_fingers bs j b pred Hl Hb Hp).
  - pose proof (decreasing_NoDup _ _ Hd) as Hnd.
    destruct k as [|k]; [rewrite (linked_genesis bs b Hl Hb); cbn; lia|].
    pose proof (linked_targets bs k b Hl Hb) as Ht.
    pose proof (skipchain_indices_size (Z.of_nat (S k))) as Hsz.
    rewrite <- Ht in Hsz. unfold finger_targets in Hsz.
    rewrite size_list_to_set, length_fmap in Hsz by done. exact Hsz.
  - intros ->. exact (linked_genesis bs b Hl Hb).
Qed.
End FingerProperties.

(** ** Built chains and their store *)

Section StoreBackedProperties.
Context {Payload : Type} `{Hasher} `{!BlockCls Payload}.

Abbreviation Block := (Block Payload).
Abbreviation Chain := (Chain Payload).
Implicit Types (b d pred : Block) (ch : Chain) (h : heap Payload)
  (bs : list Block) (c : chain_ref) (ps : list Payload).

Lemma commit_payloads_unfold c p ps h prev :
  hook_keeps_links -> at_head (h c) prev ->
  let made := set_payload p (BaseBlock_make_next_block prev (Some c) None) in
  commit_payloads c (p :: ps) h =
    (let* blocks := commit_payloads c ps in ret (pre_commit made :: blocks))
      (heap_set c (Chain_commit_block (pre_commit made) (h c)).2 (heap_set c (h c) h)).
Proof.
  intros Hook Hat made. destruct (Hook made) as (_ & _ & Hc).
  cbn [commit_payloads]. unfold bind at 1, on_chain at 1.
  unfold Chain_make_next_block, bind at 1.
  rewrite (head_block_at_head _ _ Hat). unfold ret at 1.
  fold made. unfold bind at 1, BaseBlock_commit.
  assert (Em : _chain made = Some c) by (subst made; now destruct prev).
  rewrite Em, Hc, Em. unfold bind at 1, on_chain.
  rewrite heap_set_same, commit_block_state. reflexivity.
Qed.

Lemma store_after_cons (m : gmap string bytes) b bs :
  store_after m (b :: bs) = store_after (<[BaseBlock_hid b := serialize b]> m) bs.
Proof. reflexivity. Qed.

Lemma store_after_snoc (m : gmap string bytes) bs b :
  store_after m (bs ++ [b]) = <[BaseBlock_hid b := serialize b]> (store_after m bs).
Proof. unfold store_after. now rewrite foldl_snoc. Qed.

(** The store and the payloads that the loop leaves behind. *)
Lemma commit_payloads_store c ps :
  hook_keeps_links -> ∀ h prev bs h',
    at_head (h c) prev -> commit_payloads c ps h = (Return bs, h') ->
    _backend (object_store (h' c)) = store_after (_backend (object_store (h c))) bs
    ∧ Forall2 (λ b p, ∃ made, payload made = Some p ∧ b = pre_commit made) bs ps.
Proof.
  intros Hook. induction ps as [|p ps IH]; intros h prev bs h' Hat E.
  - injection E as <- <-. split; [reflexivity | constructor].
  - rewrite (commit_payloads_unfold c p ps h prev Hook Hat) in E. cbn zeta in E.
    set (made := set_payload p (BaseBlock_make_next_block prev (Some c) None)) in *.
    set (h1 := heap_set c _ _) in E.
    assert (Hat1 : at_head (h1 c) (Some (pre_commit made))).
    { subst h1. rewrite heap_set_same, commit_block_state. cbn.
      split; [reflexivity | apply lookup_insert_eq]. }
    assert (Hs1 : _backend (object_store (h1 c))
                  = <[BaseBlock_hid (pre_commit made) := serialize (pre_commit made)]>
                      (_backend (object_store (h c)))).
    { subst h1. now rewrite heap_set_same, commit_block_state. }
    unfold bind in E.
    destruct (commit_payloads c ps h1) as [[bs1| |] h2] eqn:E1; try discriminate.
    injection E as <- <-.
    destruct (IH h1 (Some (pre_commit made)) bs1 h2 Hat1 E1) as [Hst Hpay].
    split.
    + now rewrite store_after_cons, Hst, Hs1.
    + constructor; [|done]. exists made. done.
Qed.

Lemma committed_store c ps h0 h bs :
  hook_keeps_links -> head (h0 c) = None ->
  commit_payloads c ps h0 = (Return bs, h) ->
  _backend (object_store (h c)) = store_after (_backend (object_store (h0 c))) bs
  ∧ Forall2 (λ b p, ∃ made, payload made = Some p ∧ b = pre_commit made) bs ps.
Proof.
  intros Hook Hh E. exact (commit_payloads_store c ps Hook h0 None bs h Hh E).
Qed.

(** X14: right after [commit_block(block)], on any chain: the head is the
    hash of the block, [head_block] is the block, [len] is its index plus
    one, a lookup by that hash gives the block, and the store holds its
    serialization under the hash, which passes the integrity check. *)
Theorem commit_block_then_read ch b :
  let ch' := (Chain_commit_block b ch).2 in
  head ch' = Some (BaseBlock_hid b)
  ∧ Chain_head_block ch' = (Return (Some b), ch')
  ∧ Chain_len ch' = (Return (BaseBlock_index b + 1), ch')
  ∧ Chain_get_block_by_hid (BaseBlock_hid b) ch' = (Return (Some b), ch')
  ∧ DictionaryStore_get (object_store ch') (BaseBlock_hid b) true
    = Return (Some (serialize b)).
Proof.
  rewrite commit_block_state. cbn [snd].
  set (ch' := mkChain _ _ _).
  assert (Hc : cache ch' !! BaseBlock_hid b = Some b) by apply lookup_insert_eq.
  assert (Hhb : Chain_head_block ch' = (Return (Some b), ch')).
  { now apply (head_block_at_head ch' (Some b)). }
  split; [reflexivity|]. split; [exact Hhb|]. split; [|split].
  - unfold Chain_len, bind. now rewrite Hhb.
  - now apply get_block_by_hid_cached.
  - subst ch'. cbn [object_store]. unfold BaseBlock_hid.
    unfold DictionaryStore_get, DictionaryStore_put. cbn [_backend].
    rewrite lookup_insert_eq. now rewrite (proj2 (check_hash_ok _ _) eq_refl).
Qed.

(** X15: after the loop has committed the payloads [ps] on an empty chain,
    [len(chain)] is their number and the head is the hash of the last
    committed block (no head if there was none); [make_next_block] then
    hands out a block of index [len(chain)] that belongs to the chain and
    leaves the chain exactly as it was. *)
Theorem built_chain_head_and_next c ps h0 h bs (p : option Payload) :
  hook_keeps_links -> head (h0 c) = None ->
  commit_payloads c ps h0 = (Return bs, h) ->
  length bs = length ps
  ∧ Chain_len (h c) = (Return (Z.of_nat (length ps)), h c)
  ∧ head (h c) = BaseBlock_hid <$> last bs
  ∧ ∃ next,
      Chain_make_next_block c p (h c) = (Return next, h c)
      ∧ BaseBlock_index next = Z.of_nat (length ps)
      ∧ _chain next = Some c ∧ payload next = p
      ∧ Chain_len (h c) = (Return (Z.of_nat (length ps)), h c).
Proof.
  intros Hook Hh E.
  pose proof (built_chain_len c ps h0 h bs Hook Hh E) as Hlen.
  destruct (committed_blocks c ps h0 h bs Hook Hh E) as (Hl & Hlink & Hat & _).
  split; [done|]. split; [done|]. split.
  - destruct (last bs); cbn in *; [now destruct Hat | done].
  - exists (BaseBlock_make_next_block (last bs) (Some c) p).
    split; [|split; [|split; [|split]]]; try done.
    + unfold Chain_make_next_block, bind. now rewrite (head_block_at_head _ _ Hat).
    + destruct (last bs) as [lb|] eqn:Elast; cbn.
      * pose proof Elast as Hlb. rewrite last_lookup in Hlb.
        rewrite (linked_index bs _ lb Hlink Hlb).
        apply lookup_lt_Some in Hlb. lia.
      * apply last_None in Elast. subst bs. destruct ps; [reflexivity | discriminate].
    + now destruct (last bs).
    + now destruct (last bs).
Qed.

(** *** Reading a built chain through a store *)

(** The walk of a closed cache, followed on a chain whose store holds the
    serialization of every block of the evidence. *)
Lemma walk_covered G ch evF (i : Z) (fuel : nat) r :
  codec_roundtrip -> closed G ch ->
  ∀ (key : string) b d ev ch2,
    G key -> cache ch !! key = Some b -> same_content d b -> agree G ch ev ->
    Chain_walk fuel i true key (Some b) ev ch = (Return (FoundWithEvidence r evF), ch) ->
    (∀ k b', k ∈ evF.*1 -> cache ch !! k = Some b' ->
       _backend (object_store ch2) !! k = Some (serialize b')) ->
    cache_follows ch ch2 ->
    ∃ d' ch2',
      Chain_walk fuel i false key (Some d) [] ch2 = (Return (Found d'), ch2')
      ∧ same_content d' r.
Proof.
  intros Hcodec Hcl. induction fuel as [|fuel IH];
    intros key b d ev ch2 Hg Hc Hsame Hev Hw Hcov Hfol; cbn [Chain_walk] in *; [done|].
  destruct Hsame as (Hi & Hf & Hs). rewrite Hi.
  case_bool_decide as Hidx.
  - injection Hw as <- _. exists d, ch2. done.
  - revert Hw. unfold bind at 1 3, lift at 1 2.
    rewrite (first_finger_same_fingers i d b Hf).
    destruct (first_finger i b) as [fh| |] eqn:Ef; try done.
    destruct (Hcl key Hg) as (b0 & Hc0 & _ & Hfs).
    assert (b0 = b) as -> by congruence.
    pose proof (Hfs fh (first_finger_elem i b fh Ef)) as Hg'.
    destruct (Hcl fh.2 Hg') as (b' & Hc' & _ & _).
    unfold bind at 1. rewrite (get_block_by_hid_cached ch _ b' Hc').
    intros Hw.
    destruct (walk_evidence G ch i fuel Hcl fh.2 b' _ r evF ch Hg' Hc'
                (agree_od_set G ch ev key b Hg Hc Hev) Hw) as (_ & Hag & Hk & _).
    destruct (get_block_by_hid_replay G ch ch2 fh.2 b' Hcodec Hcl Hg' Hc')
      as (d' & ch2' & Eg & Hsame' & Hfol' & Hst' & _); [now apply Hcov|done|].
    unfold bind at 1. rewrite Eg.
    apply (IH fh.2 b' d' _ ch2' Hg' Hc' Hsame'
             (agree_od_set G ch ev key b Hg Hc Hev) Hw); [|done].
    now rewrite Hst'.
Qed.

Lemma get_block_by_index_covered G ch ch2 (fuel : nat) (i : Z) r evF ch' :
  codec_roundtrip -> closed G ch -> (∀ hid, head ch = Some hid -> G hid) ->
  Chain_get_block_by_index fuel i true ch = (Return (FoundWithEvidence r evF), ch') ->
  head ch2 = head ch -> cache_follows ch ch2 ->
  (∀ k b', k ∈ evF.*1 -> cache ch !! k = Some b' ->
     _backend (object_store ch2) !! k = Some (serialize b')) ->
  ∃ d ch2',
    Chain_get_block_by_index fuel i false ch2 = (Return (Found d), ch2')
    ∧ same_content d r.
Proof.
  intros Hcodec Hcl Hhead Hrun Hh2 Hfol Hcov.
  destruct (head ch) as [hid|] eqn:Eh.
  2:{ revert Hrun. unfold Chain_get_block_by_index. run_monad. now rewrite Eh. }
  pose proof (Hhead hid eq_refl) as Hg.
  destruct (Hcl hid Hg) as (hb & Hc & Hhid & _).
  assert (Hhb : Chain_head_block ch = (Return (Some hb), ch)).
  { unfold Chain_head_block. run_monad. rewrite Eh. now apply get_block_by_hid_cached. }
  destruct (decide (0 ≤ i ≤ BaseBlock_index hb)) as [Hi|Hi].
  2:{ rewrite (get_block_by_index_beyond_head ch hb ch fuel i true Hhb Hi) in Hrun.
      discriminate. }
  rewrite (get_block_by_index_in_range ch hid hb ch fuel i true Eh Hhb Hi) in Hrun.
  assert (Hnil : agree G ch []) by (intros kv Hin; now apply elem_of_nil in Hin).
  destruct (walk_evidence G ch i fuel Hcl hid hb [] r evF ch' Hg Hc Hnil Hrun)
    as (-> & Hag & Hk & _).
  destruct (get_block_by_hid_replay G ch ch2 hid hb Hcodec Hcl Hg Hc)
    as (d & ch2' & Eg & Hsame & Hfol' & Hst & Hh2'); [now apply Hcov|done|].
  assert (Hhb2 : Chain_head_block ch2 = (Return (Some d), ch2')).
  { unfold Chain_head_block. run_monad. now rewrite Hh2. }
  destruct Hsame as (Hsi & Hsf & Hss).
  rewrite (get_block_by_index_in_range ch2 hid d ch2' fuel i false Hh2 Hhb2)
    by (rewrite Hsi; exact Hi).
  apply (walk_covered G ch evF i fuel r Hcodec Hcl hid hb d [] ch2' Hg Hc); try done.
  intros k b' Hk' Hb'. rewrite Hst. now apply Hcov.
Qed.

(** Cache and store of a built chain hold the same block under each hash. *)
Lemma built_store_covers (m : gmap string Block) (st : gmap string bytes) bs key b :
  key ∈ BaseBlock_hid <$> bs -> cache_after m bs !! key = Some b ->
  store_after st bs !! key = Some (serialize b).
Proof.
  induction bs as [|b0 bs IH] using rev_ind; intros Hk.
  - now apply elem_of_nil in Hk.
  - rewrite cache_after_snoc, store_after_snoc.
    destruct (decide (BaseBlock_hid b0 = key)) as [E|Hne].
    + rewrite E, !lookup_insert_eq. now intros [= ->].
    + rewrite !lookup_insert_ne by done. apply IH.
      rewrite fmap_app, elem_of_app in Hk. destruct Hk as [Hk|Hk]; [done|].
      cbn in Hk. apply list_elem_of_singleton in Hk. congruence.
Qed.

Lemma visited_keys_committed bs (i : nat) (k : string) :
  k ∈ (entries (reverse (drop i bs))).*1 -> k ∈ BaseBlock_hid <$> bs.
Proof.
  rewrite entries_keys, fmap_reverse, elem_of_reverse.
  intros (b & -> & Hin)%list_elem_of_fmap. apply list_elem_of_fmap.
  exists b. split; [done|]. now apply (subseteq_drop i bs).
Qed.

Lemma visited_keys_later bs (i j : nat) (k : string) :
  (i ≤ j)%nat ->
  k ∈ (entries (reverse (drop j bs))).*1 -> k ∈ (entries (reverse (drop i bs))).*1.
Proof.
  intros Hij. rewrite !entries_keys, !fmap_reverse, !elem_of_reverse.
  intros (b & -> & Hin)%list_elem_of_fmap. apply list_elem_of_fmap.
  exists b. split; [done|].
  replace j with (i + (j - i))%nat in Hin by lia. rewrite <- drop_drop in Hin.
  now apply (subseteq_drop (j - i) (drop i bs)).
Qed.

(** X16: [test_get_block_by_hid_from_store] and
    [test_get_block_by_index_from_store] for every built chain with
    pairwise different hashes: once the cache is cleared, the lookup by
    the hash of the block committed at place [i], and the lookup of index
    [i] with [N] units of fuel, both read through the store, pass the
    integrity checks and return a block with the index, fingers,
    serialization and hash of that block. *)
Theorem built_chain_read_from_store c ps h0 h bs (i : Z) :
  hook_keeps_links -> codec_roundtrip -> head (h0 c) = None ->
  commit_payloads c ps h0 = (Return bs, h) ->
  NoDup (BaseBlock_hid <$> bs) ->
  0 ≤ i < Z.of_nat (length ps) ->
  ∃ b, bs !! Z.to_nat i = Some b
    ∧ (∃ d ch2,
         Chain_get_block_by_hid (BaseBlock_hid b) (clear_cache (h c))
           = (Return (Some d), ch2)
         ∧ same_content d b ∧ BaseBlock_hid d = BaseBlock_hid b)
    ∧ (∀ fuel, (length ps ≤ fuel)%nat ->
         ∃ d ch2,
           Chain_get_block_by_index fuel i false (clear_cache (h c))
             = (Return (Found d), ch2)
           ∧ same_content d b ∧ BaseBlock_hid d = BaseBlock_hid b).
Proof.
  intros Hook Hcodec Hh E Hnd Hi.
  destruct (committed_blocks c ps h0 h bs Hook Hh E) as (Hlen & Hl & Hat & Hc).
  destruct (committed_store c ps h0 h bs Hook Hh E) as [Hst _].
  destruct (built_cache_closed c ps h0 h bs Hook Hh E) as [Hcl Hhead].
  destruct (lookup_lt_is_Some_2 bs (Z.to_nat i)) as [b Hb]; [lia|].
  assert (Hcache : ∀ (k : nat) b', bs !! k = Some b' ->
            cache (h c) !! BaseBlock_hid b' = Some b').
  { intros k b' Hk. rewrite Hc. now apply (cache_after_lookup _ bs k). }
  assert (Hcov : ∀ k b', k ∈ BaseBlock_hid <$> bs -> cache (h c) !! k = Some b' ->
            _backend (object_store (clear_cache (h c))) !! k = Some (serialize b')).
  { intros k b' Hk Hb'. cbn. rewrite Hst. rewrite Hc in Hb'.
    now apply (built_store_covers (cache (h0 c))). }
  assert (Hfol : cache_follows (h c) (clear_cache (h c))).
  { intros k d Hk. cbn in Hk. now rewrite lookup_empty in Hk. }
  assert (Hhid : ∀ d, same_content d b -> BaseBlock_hid d = BaseBlock_hid b).
  { intros d (_ & _ & Hs). unfold BaseBlock_hid. now rewrite Hs. }
  assert (Hg : BaseBlock_hid b ∈ BaseBlock_hid <$> bs).
  { apply list_elem_of_fmap. exists b. split; [done|]. apply list_elem_of_lookup. eauto. }
  exists b. split; [done|]. split.
  - destruct (get_block_by_hid_replay _ (h c) (clear_cache (h c)) (BaseBlock_hid b) b
                Hcodec Hcl Hg (Hcache _ _ Hb))
      as (d & ch2 & Eg & Hsame & _);
      [apply Hcov; [exact Hg | exact (Hcache _ _ Hb)] | done |].
    exists d, ch2. auto.
  - intros fuel Hfuel.
    pose proof (get_block_by_index_built bs (h c) (Z.to_nat i) b true fuel
                  Hl Hnd Hcache Hat Hb ltac:(lia)) as Hrun.
    rewrite Z2Nat.id in Hrun by lia. unfold found, visited in Hrun.
    destruct (get_block_by_index_covered _ (h c) (clear_cache (h c)) fuel i b _ (h c)
                Hcodec Hcl Hhead Hrun eq_refl Hfol) as (d & ch2 & Erun & Hsame).
    { intros k b' Hk. apply Hcov. now apply (visited_keys_committed bs (Z.to_nat i)). }
    exists d, ch2. auto.
Qed.

(** X17: the evidence of the lookup of index [i] serves every index from
    [i] up to the head, as [test_chain_evidence] does with 2 and 5: on a
    built chain with pairwise different hashes, a chain with the same head,
    an empty cache and a store of that serialized evidence alone returns
    for each such [j] a block with the content of the block committed at
    place [j]. *)
Theorem evidence_serves_later_indices c ps h0 h bs (i j : Z) (fuel : nat) :
  hook_keeps_links -> codec_roundtrip -> head (h0 c) = None ->
  commit_payloads c ps h0 = (Return bs, h) ->
  NoDup (BaseBlock_hid <$> bs) ->
  0 ≤ i ≤ j -> j < Z.of_nat (length ps) -> (length ps ≤ fuel)%nat ->
  ∃ block evidence bj,
    Chain_get_block_by_index fuel i true (h c)
      = (Return (FoundWithEvidence block evidence), h c)
    ∧ bs !! Z.to_nat j = Some bj
    ∧ ∃ d ch2,
        Chain_get_block_by_index fuel j false (replay_chain (head (h c)) evidence)
          = (Return (Found d), ch2)
        ∧ same_content d bj ∧ BaseBlock_hid d = BaseBlock_hid bj.
Proof.
  intros Hook Hcodec Hh E Hnd Hij Hj Hfuel.
  destruct (committed_blocks c ps h0 h bs Hook Hh E) as (Hlen & Hl & Hat & Hc).
  destruct (built_cache_closed c ps h0 h bs Hook Hh E) as [Hcl Hhead].
  destruct (lookup_lt_is_Some_2 bs (Z.to_nat i)) as [bi Hbi]; [lia|].
  destruct (lookup_lt_is_Some_2 bs (Z.to_nat j)) as [bj Hbj]; [lia|].
  assert (Hcache : ∀ (k : nat) b', bs !! k = Some b' ->
            cache (h c) !! BaseBlock_hid b' = Some b').
  { intros k b' Hk. rewrite Hc. now apply (cache_after_lookup _ bs k). }
  pose proof (get_block_by_index_built bs (h c) (Z.to_nat i) bi true fuel
                Hl Hnd Hcache Hat Hbi ltac:(lia)) as Hruni.
  pose proof (get_block_by_index_built bs (h c) (Z.to_nat j) bj true fuel
                Hl Hnd Hcache Hat Hbj ltac:(lia)) as Hrunj.
  rewrite Z2Nat.id in Hruni, Hrunj by lia. unfold found, visited in Hruni, Hrunj.
  exists bi, (entries (reverse (drop (Z.to_nat i) bs))), bj.
  split; [done|]. split; [done|].
  destruct (get_block_by_index_replay _ (h c) fuel i bi _ (h c) Hcodec Hcl Hhead Hruni)
    as [Hag _].
  destruct (get_block_by_index_covered _ (h c)
              (replay_chain (head (h c)) (entries (reverse (drop (Z.to_nat i) bs))))
              fuel j bj _ (h c) Hcodec Hcl Hhead Hrunj eq_refl)
    as (d & ch2 & Erun & Hsame).
  { intros k d Hk. cbn in Hk. now rewrite lookup_empty in Hk. }
  { intros k b' Hk Hb'. cbn.
    apply (serialized_evidence_lookup _ (h c) _ k b' Hag); [|done].
    apply (visited_keys_later bs (Z.to_nat i) (Z.to_nat j)); [lia | done]. }
  exists d, ch2. split; [done|]. split; [done|].
  destruct Hsame as (_ & _ & Hs). unfold BaseBlock_hid. now rewrite Hs.
Qed.

(** X18: the evidence of a lookup on a built chain with pairwise different
    hashes is the list of all the blocks committed from the head down to
    the index asked for, each under its own hash: [N - i] entries. *)
Theorem evidence_is_the_path_from_head c ps h0 h bs (i : Z) (fuel : nat) :
  hook_keeps_links -> head (h0 c) = None ->
  commit_payloads c ps h0 = (Return bs, h) ->
  NoDup (BaseBlock_hid <$> bs) ->
  0 ≤ i < Z.of_nat (length ps) -> (length ps - Z.to_nat i ≤ fuel)%nat ->
  ∃ b, bs !! Z.to_nat i = Some b
    ∧ Chain_get_block_by_index fuel i true (h c)
      = (Return (FoundWithEvidence b
                   ((λ b, (BaseBlock_hid b, b)) <$> reverse (drop (Z.to_nat i) bs))),
         h c).
Proof.
  intros Hook Hh E Hnd Hi Hfuel.
  destruct (committed_blocks c ps h0 h bs Hook Hh E) as (Hlen & Hl & Hat & Hc).
  destruct (lookup_lt_is_Some_2 bs (Z.to_nat i)) as [b Hb]; [lia|].
  exists b. split; [done|]. rewrite <- (Z2Nat.id i) at 1 by lia.
  apply (get_block_by_index_built bs (h c) (Z.to_nat i) b true fuel); try done; [|lia].
  intros k b' Hk. rewrite Hc. now apply (cache_after_lookup _ bs k).
Qed.

(** X19: with [BaseBlock]'s own hook ([pass]), the tests
    [test_get_block_by_hid_from_cache] and
    [test_get_block_by_index_from_cache] hold for every list of payloads
    whose blocks get pairwise different hashes: the lookup by the [i]-th
    hash and the lookup of index [i] return the block that carries the
    [i]-th payload, and leave the chain as it was. *)
Theorem built_chain_returns_payloads c ps h0 h bs (i : nat) (p : Payload) :
  (∀ b, pre_commit b = b) -> head (h0 c) = None ->
  commit_payloads c ps h0 = (Return bs, h) ->
  NoDup (BaseBlock_hid <$> bs) ->
  ps !! i = Some p ->
  ∃ b, bs !! i = Some b ∧ payload b = Some p ∧ BaseBlock_index b = Z.of_nat i
    ∧ Chain_get_block_by_hid (BaseBlock_hid b) (h c) = (Return (Some b), h c)
    ∧ ∀ fuel, (length ps ≤ fuel)%nat ->
        Chain_get_block_by_index fuel (Z.of_nat i) false (h c) = (Return (Found b), h c).
Proof.
  intros Hid Hh E Hnd Hp.
  assert (Hook : hook_keeps_links) by (intros b; now rewrite Hid).
  destruct (committed_blocks c ps h0 h bs Hook Hh E) as (Hlen & Hl & Hat & Hc).
  destruct (committed_store c ps h0 h bs Hook Hh E) as [_ Hpay].
  pose proof (lookup_lt_Some _ _ _ Hp) as Hlt.
  destruct (lookup_lt_is_Some_2 bs i) as [b Hb]; [lia|].
  assert (Hcache : ∀ (k : nat) b', bs !! k = Some b' ->
            cache (h c) !! BaseBlock_hid b' = Some b').
  { intros k b' Hk. rewrite Hc. now apply (cache_after_lookup _ bs k). }
  exists b. split; [done|]. split; [|split; [|split]].
  - destruct (Forall2_lookup_lr _ _ _ _ _ _ Hpay Hb Hp) as (made & Hm & ->).
    now rewrite Hid.
  - exact (linked_index bs i b Hl Hb).
  - apply get_block_by_hid_cached. exact (Hcache i b Hb).
  - intros fuel Hfuel.
    apply (get_block_by_index_built bs (h c) i b false fuel); try done. lia.
Qed.

(** X22: [commit_block] takes any block, its fingers are not checked: once
    a block whose fingers all point below [i] (or that has none) is
    committed, the lookup of an index [i] below the index of that block
    passes the range check and then raises [IndexError], on whatever chain
    the block was committed. *)
Theorem unchecked_fingers_break_lookup ch b (i : Z) (re : bool) (fuel : nat) :
  0 ≤ i < BaseBlock_index b -> (∀ fh, fh ∈ fingers b -> fh.1 < i) ->
  let ch' := (Chain_commit_block b ch).2 in
  Chain_get_block_by_index (S fuel) i re ch' = (Raise IndexError, ch').
Proof.
  intros Hi Hf. rewrite commit_block_state. cbn [snd]. set (ch' := mkChain _ _ _).
  assert (Hhb : Chain_head_block ch' = (Return (Some b), ch')).
  { apply (head_block_at_head ch' (Some b)). split; [done | apply lookup_insert_eq]. }
  rewrite (get_block_by_index_in_range ch' (BaseBlock_hid b) b ch' (S fuel) i re eq_refl Hhb)
    by lia.
  cbn [Chain_walk]. rewrite bool_decide_eq_false_2 by lia.
  unfold bind at 1, lift at 1.
  assert (Ef : first_finger i b = Raise IndexError).
  { unfold first_finger.
    assert (E : filter (λ fh : Z * string, i ≤ fh.1) (fingers b) = []).
    { induction (fingers b) as [|fh fs IH]; [done|].
      rewrite filter_cons_False.
      - apply IH. intros fh' Hin. apply Hf. now apply list_elem_of_further.
      - pose proof (Hf fh (list_elem_of_here _ _)). lia. }
    now rewrite E. }
  now rewrite Ef.
Qed.

(** *** Reading a chain whose lower part is missing or tampered with *)

Lemma hid_position bs (k k' : nat) b b' :
  NoDup (BaseBlock_hid <$> bs) -> bs !! k = Some b -> bs !! k' = Some b' ->
  BaseBlock_hid b = BaseBlock_hid b' -> k = k'.
Proof.
  intros Hnd Hk Hk' E.
  apply (NoDup_lookup (BaseBlock_hid <$> bs) k k' (BaseBlock_hid b) Hnd);
    rewrite list_lookup_fmap; [now rewrite Hk | now rewrite Hk', E].
Qed.

Lemma mirrors_cache_miss bs (lo k : nat) b ch2 :
  NoDup (BaseBlock_hid <$> bs) -> mirrors bs lo ch2 ->
  bs !! k = Some b -> (k < lo)%nat -> cache ch2 !! BaseBlock_hid b = None.
Proof.
  intros Hnd [_ Hcache] Hk Hlt.
  destruct (cache ch2 !! BaseBlock_hid b) as [d|] eqn:E; [|done].
  destruct (Hcache _ _ E) as (k' & b' & Hk' & Hle & Hh & _).
  pose proof (hid_position bs k k' b b' Hnd Hk Hk' Hh). lia.
Qed.

Lemma fetch_mirrored bs (lo k : nat) b ch2 :
  codec_roundtrip -> NoDup (BaseBlock_hid <$> bs) -> mirrors bs lo ch2 ->
  bs !! k = Some b -> (lo ≤ k)%nat ->
  ∃ d ch2',
    Chain_get_block_by_hid (BaseBlock_hid b) ch2 = (Return (Some d), ch2')
    ∧ same_content d b ∧ mirrors bs lo ch2'
    ∧ object_store ch2' = object_store ch2 ∧ head ch2' = head ch2.
Proof.
  intros Hcodec Hnd Hm Hk Hle. pose proof Hm as [Hstore Hcache].
  unfold Chain_get_block_by_hid. unfold bind at 1, get_self at 1.
  destruct (cache ch2 !! BaseBlock_hid b) as [d|] eqn:Ec.
  - exists d, ch2. destruct (Hcache _ _ Ec) as (k' & b' & Hk' & _ & Hh & Hsame).
    pose proof (hid_position bs k k' b b' Hnd Hk Hk' Hh) as <-.
    assert (b' = b) as -> by congruence. done.
  - unfold bind at 1, lift at 1. rewrite store_get_checked, (Hstore k b Hk Hle).
    rewrite decide_True by reflexivity.
    destruct (Hcodec b) as (d & Hd & Hsame).
    unfold bind at 1, lift at 1. rewrite Hd. run_monad.
    eexists d, _. split; [reflexivity|]. split; [done|]. split; [|done].
    split; [exact Hstore|]. intros key d'. cbn.
    destruct (decide (BaseBlock_hid b = key)) as [<-|Hne].
    + rewrite lookup_insert_eq. intros [= <-]. exists k, b. done.
    + rewrite lookup_insert_ne by done. apply Hcache.
Qed.

(** From the block at place [S lo + n] the loop walks down to place [S lo]
    and then asks for the block [below] at place [lo], for a target index
    that is not above [lo]. *)
Lemma walk_down bs (lo : nat) below (j : Z) (re : bool) :
  codec_roundtrip -> linked_from None bs -> NoDup (BaseBlock_hid <$> bs) ->
  bs !! lo = Some below -> j ≤ Z.of_nat lo ->
  ∀ (n k : nat) b d (fuel : nat) ev ch2,
    mirrors bs (S lo) ch2 -> bs !! k = Some b -> same_content d b ->
    k = (S lo + n)%nat ->
    ∃ ch2' ev',
      mirrors bs (S lo) ch2' ∧ object_store ch2' = object_store ch2
      ∧ head ch2' = head ch2
      ∧ Chain_walk (S n + fuel) j re (BaseBlock_hid b) (Some d) ev ch2
        = (let* next := Chain_get_block_by_hid (BaseBlock_hid below) in
           Chain_walk fuel j re (BaseBlock_hid below) next ev') ch2'.
Proof.
  intros Hcodec Hl Hnd Hbelow Hj.
  induction n as [|n IH]; intros k b d fuel ev ch2 Hm Hk (Hi & Hf & Hs) ->.
  - rewrite Nat.add_0_r in Hk. cbn [Nat.add Chain_walk].
    rewrite Hi, (linked_index bs _ b Hl Hk).
    rewrite bool_decide_eq_false_2 by lia.
    unfold bind at 1, lift at 1.
    rewrite (first_finger_same_fingers j d b Hf).
    rewrite (first_finger_predecessor bs lo b below j Hl Hk Hbelow Hj). cbn [snd].
    eexists ch2, _. split; [done|]. split; [done|]. split; [done|]. reflexivity.
  - replace (S lo + S n)%nat with (S (S lo + n)) in Hk by lia.
    destruct (lookup_lt_is_Some_2 bs (S lo + n)) as [pred Hp].
    { apply lookup_lt_Some in Hk. lia. }
    cbn [Nat.add Chain_walk].
    rewrite Hi, (linked_index bs _ b Hl Hk).
    rewrite bool_decide_eq_false_2 by lia.
    unfold bind at 1, lift at 1.
    rewrite (first_finger_same_fingers j d b Hf).
    rewrite (first_finger_predecessor bs (S lo + n) b pred j Hl Hk Hp) by lia.
    cbn [snd]. unfold bind at 1.
    destruct (fetch_mirrored bs (S lo) (S lo + n) pred ch2 Hcodec Hnd Hm Hp ltac:(lia))
      as (d' & ch2_1 & Eg & Hsame & Hm1 & Hst1 & Hh1).
    rewrite Eg.
    destruct (IH (S lo + n)%nat pred d' fuel
                (if re then od_set (BaseBlock_hid b) d ev else ev) ch2_1 Hm1 Hp Hsame eq_refl)
      as (ch2' & ev' & Hm' & Hst' & Hh' & Ew).
    exists ch2', ev'. split; [done|]. split; [congruence|]. split; [congruence|].
    exact Ew.
Qed.

(** [get_block_by_index] on a chain that has the head of the built chain
    and can supply the blocks from place [S lo] on, for a target not above
    [lo]: what happens is decided by the fetch of the block at place [lo]. *)
Lemma get_block_by_index_down bs (lo : nat) below (j : Z) (re : bool) ch2 (fuel : nat) :
  codec_roundtrip -> linked_from None bs -> NoDup (BaseBlock_hid <$> bs) ->
  bs !! lo = Some below -> 0 ≤ j ≤ Z.of_nat lo -> (S lo < length bs)%nat ->
  head ch2 = BaseBlock_hid <$> last bs -> mirrors bs (S lo) ch2 ->
  ∃ ch2' ev',
    mirrors bs (S lo) ch2' ∧ object_store ch2' = object_store ch2
    ∧ Chain_get_block_by_index (length bs - S lo + fuel) j re ch2
      = (let* next := Chain_get_block_by_hid (BaseBlock_hid below) in
         Chain_walk fuel j re (BaseBlock_hid below) next ev') ch2'.
Proof.
  intros Hcodec Hl Hnd Hbelow Hj Hlo Hh Hm.
  destruct (last bs) as [lb|] eqn:Elast; [|apply last_None in Elast; subst; cbn in Hlo; lia].
  pose proof Elast as Hlb. rewrite last_lookup in Hlb. cbn in Hh.
  destruct (fetch_mirrored bs (S lo) _ lb ch2 Hcodec Hnd Hm Hlb ltac:(lia))
    as (d & ch2_1 & Eg & Hsame & Hm1 & Hst1 & Hh1).
  assert (Hhb : Chain_head_block ch2 = (Return (Some d), ch2_1)).
  { unfold Chain_head_block. run_monad. now rewrite Hh. }
  pose proof Hsame as (Hi & _ & _).
  rewrite (get_block_by_index_in_range ch2 _ d ch2_1 _ j re Hh Hhb)
    by (rewrite Hi, (linked_index bs _ lb Hl Hlb); lia).
  replace (length bs - S lo + fuel)%nat
    with (S (Nat.pred (length bs) - S lo) + fuel)%nat by lia.
  destruct (walk_down bs lo below j re Hcodec Hl Hnd Hbelow ltac:(lia)
              (Nat.pred (length bs) - S lo)%nat _ lb d fuel [] ch2_1 Hm1 Hlb Hsame
              ltac:(lia))
    as (ch2' & ev' & Hm' & Hst' & _ & Ew).
  exists ch2', ev'. split; [done|]. split; [congruence|]. exact Ew.
Qed.

Lemma walk_none (fuel : nat) (i : Z) (re : bool) (hid : string) ev ch :
  Chain_walk fuel i re hid None ev ch = (Return NoBlock, ch).
Proof. now destruct fuel. Qed.

Lemma get_block_by_hid_absent ch (hid : string) :
  cache ch !! hid = None -> _backend (object_store ch) !! hid = None ->
  Chain_get_block_by_hid hid ch = (Return None, ch).
Proof.
  intros Hc Hs. unfold Chain_get_block_by_hid. run_monad.
  now rewrite Hc, store_get_checked, Hs.
Qed.

Lemma get_block_by_hid_tampered ch (hid : string) (raw : bytes) :
  cache ch !! hid = None -> _backend (object_store ch) !! hid = Some raw ->
  ascii_hash raw ≠ hid ->
  Chain_get_block_by_hid hid ch
  = (Raise (IntegrityValidationError "Object has wrong hash."), ch).
Proof.
  intros Hc Hs Hne. unfold Chain_get_block_by_hid. run_monad.
  rewrite Hc, store_get_checked, Hs. now rewrite decide_False by congruence.
Qed.

Lemma get_block_by_index_head_raises ch (hid : string) e ch' (fuel : nat) (i : Z)
    (re : bool) :
  head ch = Some hid -> Chain_get_block_by_hid hid ch = (Raise e, ch') ->
  Chain_get_block_by_index fuel i re ch = (Raise e, ch').
Proof.
  intros Hh Eg. unfold Chain_get_block_by_index.
  unfold bind at 1, get_self at 1. rewrite Hh.
  unfold bind at 1, Chain_head_block. unfold bind at 1, get_self at 1.
  now rewrite Hh, Eg.
Qed.

Lemma serialized_evidence_notin (ev : list (string * Block)) (key : string) :
  key ∉ ev.*1 -> serialized_evidence ev !! key = None.
Proof.
  induction ev as [|kv ev IH] using rev_ind; intros Hk; [apply lookup_empty|].
  rewrite fmap_app, not_elem_of_app in Hk. destruct Hk as [Hk Hkv].
  cbn in Hkv. rewrite not_elem_of_cons in Hkv. destruct Hkv as [Hne _].
  rewrite serialized_evidence_snoc, lookup_insert_ne by congruence. now apply IH.
Qed.

Lemma visited_keys_position bs (i : nat) (key : string) :
  key ∈ (entries (reverse (drop i bs))).*1 ->
  ∃ (k : nat) b, bs !! k = Some b ∧ (i ≤ k)%nat ∧ key = BaseBlock_hid b.
Proof.
  rewrite entries_keys, fmap_reverse, elem_of_reverse.
  intros (b & -> & [n Hn]%list_elem_of_lookup)%list_elem_of_fmap.
  rewrite lookup_drop in Hn. exists (i + n)%nat, b. split; [done|]. split; [lia | done].
Qed.

Lemma visited_keys_from bs (i k : nat) b :
  bs !! k = Some b -> (i ≤ k)%nat ->
  BaseBlock_hid b ∈ (entries (reverse (drop i bs))).*1.
Proof.
  intros Hk Hle. rewrite entries_keys, fmap_reverse, elem_of_reverse.
  apply list_elem_of_fmap. exists b. split; [done|].
  apply list_elem_of_lookup. exists (k - i)%nat. rewrite lookup_drop.
  now replace (i + (k - i))%nat with k by lia.
Qed.

(** X20: the evidence of index [i] does not serve an index below [i]: on
    the chain that holds the serialized evidence alone, the lookup of such
    an index walks down to index [i], finds the next block neither cached
    nor stored, and returns [None]; nothing is raised. *)
Theorem evidence_misses_lower_indices c ps h0 h bs (i j : Z) (re : bool) (fuel : nat) :
  hook_keeps_links -> codec_roundtrip -> head (h0 c) = None ->
  commit_payloads c ps h0 = (Return bs, h) ->
  NoDup (BaseBlock_hid <$> bs) ->
  0 ≤ j < i -> i < Z.of_nat (length ps) -> (length ps - Z.to_nat i ≤ fuel)%nat ->
  ∃ block evidence ch2,
    Chain_get_block_by_index fuel i true (h c)
      = (Return (FoundWithEvidence block evidence), h c)
    ∧ Chain_get_block_by_index fuel j re (replay_chain (head (h c)) evidence)
      = (Return NoBlock, ch2).
Proof.
  intros Hook Hcodec Hh E Hnd Hj Hi Hfuel.
  destruct (committed_blocks c ps h0 h bs Hook Hh E) as (Hlen & Hl & Hat & Hc).
  destruct (built_cache_closed c ps h0 h bs Hook Hh E) as [Hcl Hhead].
  destruct (lookup_lt_is_Some_2 bs (Z.to_nat i)) as [bi Hbi]; [lia|].
  destruct (lookup_lt_is_Some_2 bs (Nat.pred (Z.to_nat i))) as [below Hbelow]; [lia|].
  assert (Hcache : ∀ (k : nat) b', bs !! k = Some b' ->
            cache (h c) !! BaseBlock_hid b' = Some b').
  { intros k b' Hk. rewrite Hc. now apply (cache_after_lookup _ bs k). }
  pose proof (get_block_by_index_built bs (h c) (Z.to_nat i) bi true fuel
                Hl Hnd Hcache Hat Hbi ltac:(lia)) as Hrun.
  rewrite Z2Nat.id in Hrun by lia. unfold found, visited in Hrun.
  set (ev := entries (reverse (drop (Z.to_nat i) bs))) in *.
  destruct (get_block_by_index_replay _ (h c) fuel i bi ev (h c) Hcodec Hcl Hhead Hrun)
    as [Hag _].
  assert (Hm : mirrors bs (S (Nat.pred (Z.to_nat i))) (replay_chain (head (h c)) ev)).
  { split.
    - intros k b Hk Hle. cbn.
      apply (serialized_evidence_lookup _ (h c) _ _ b Hag); [|now apply (Hcache k)].
      apply (visited_keys_from bs (Z.to_nat i) k); [done | lia].
    - intros key d Hk. cbn in Hk. now rewrite lookup_empty in Hk. }
  destruct (get_block_by_index_down bs (Nat.pred (Z.to_nat i)) below j re
              (replay_chain (head (h c)) ev) (fuel - (length bs - Z.to_nat i))
              Hcodec Hl Hnd Hbelow ltac:(lia) ltac:(lia))
    as (ch2' & ev' & Hm' & Hst' & Erun); [|exact Hm|].
  { cbn. destruct (last bs); cbn in *; [now destruct Hat | done]. }
  replace (length bs - S (Nat.pred (Z.to_nat i)) + (fuel - (length bs - Z.to_nat i)))%nat
    with fuel in Erun by lia.
  exists bi, ev, ch2'. split; [done|]. rewrite Erun. unfold bind.
  rewrite get_block_by_hid_absent.
  - apply walk_none.
  - apply (mirrors_cache_miss bs _ (Nat.pred (Z.to_nat i)) below ch2' Hnd Hm' Hbelow). lia.
  - rewrite Hst'. cbn. apply serialized_evidence_notin.
    intros (k & b & Hk & Hle & Hhid)%visited_keys_position.
    pose proof (hid_position bs _ _ below b Hnd Hbelow Hk Hhid). lia.
Qed.

(** X21: tampering with the stored bytes of one committed block is
    detected by every lookup that has to read it.  Take a built chain with
    pairwise different hashes, clear the cache and write other bytes, with
    another hash, over the bytes of the block at index [t].  Then the
    lookup by its hash and the lookup of every index from 0 to [t] raise
    [IntegrityValidationError], while the lookup of an index above [t]
    still returns a block with the content of the committed one. *)
Theorem tampering_is_detected c ps h0 h bs (t : nat) target (bad : bytes) (j : Z)
    (re : bool) (fuel : nat) :
  hook_keeps_links -> codec_roundtrip -> head (h0 c) = None ->
  commit_payloads c ps h0 = (Return bs, h) ->
  NoDup (BaseBlock_hid <$> bs) ->
  bs !! t = Some target -> ascii_hash bad ≠ BaseBlock_hid target ->
  (length ps ≤ fuel)%nat ->
  let tampered := overwrite_backend (BaseBlock_hid target) bad (clear_cache (h c)) in
  Chain_get_block_by_hid (BaseBlock_hid target) tampered
    = (Raise (IntegrityValidationError "Object has wrong hash."), tampered)
  ∧ (0 ≤ j ≤ Z.of_nat t ->
       ∃ ch2, Chain_get_block_by_index fuel j re tampered
              = (Raise (IntegrityValidationError "Object has wrong hash."), ch2))
  ∧ (Z.of_nat t < j < Z.of_nat (length ps) ->
       ∃ bj d ch2,
         bs !! Z.to_nat j = Some bj
         ∧ Chain_get_block_by_index fuel j false tampered = (Return (Found d), ch2)
         ∧ same_content d bj).
Proof.
  intros Hook Hcodec Hh E Hnd Ht Hbad Hfuel tampered.
  destruct (committed_blocks c ps h0 h bs Hook Hh E) as (Hlen & Hl & Hat & Hc).
  destruct (committed_store c ps h0 h bs Hook Hh E) as [Hst _].
  destruct (built_cache_closed c ps h0 h bs Hook Hh E) as [Hcl Hhead].
  pose proof (lookup_lt_Some _ _ _ Ht) as Htlt.
  assert (Hcache : ∀ (k : nat) b', bs !! k = Some b' ->
            cache (h c) !! BaseBlock_hid b' = Some b').
  { intros k b' Hk. rewrite Hc. now apply (cache_after_lookup _ bs k). }
  assert (Hstore : ∀ (k : nat) b, bs !! k = Some b -> k ≠ t ->
            _backend (object_store tampered) !! BaseBlock_hid b = Some (serialize b)).
  { intros k b Hk Hne. cbn. rewrite lookup_insert_ne.
    - rewrite Hst. apply (built_store_covers (cache (h0 c))).
      + apply list_elem_of_fmap. exists b. split; [done|]. apply list_elem_of_lookup. eauto.
      + rewrite <- Hc. now apply (Hcache k).
    - intros Eh. apply Hne. symmetry. exact (hid_position bs _ _ target b Hnd Ht Hk Eh). }
  assert (Hheadt : head tampered = BaseBlock_hid <$> last bs).
  { cbn. destruct (last bs); cbn in *; [now destruct Hat | done]. }
  assert (Htamp : ∀ ch2, cache ch2 !! BaseBlock_hid target = None ->
            object_store ch2 = object_store tampered ->
            Chain_get_block_by_hid (BaseBlock_hid target) ch2
            = (Raise (IntegrityValidationError "Object has wrong hash."), ch2)).
  { intros ch2 Hmiss Hs2. apply (get_block_by_hid_tampered ch2 _ bad); [done| |done].
    rewrite Hs2. cbn. apply lookup_insert_eq. }
  split; [apply Htamp; [apply lookup_empty | done]|]. split.
  - intros Hj. destruct (decide (S t = length bs)) as [Etop|Hntop].
    + exists tampered. apply (get_block_by_index_head_raises tampered (BaseBlock_hid target)).
      * rewrite Hheadt, last_lookup. replace (Nat.pred (length bs)) with t by lia.
        now rewrite Ht.
      * apply Htamp; [apply lookup_empty | done].
    + assert (Hm : mirrors bs (S t) tampered).
      { split.
        - intros k b Hk Hle. apply (Hstore k b Hk). lia.
        - intros key d Hk. cbn in Hk. now rewrite lookup_empty in Hk. }
      destruct (get_block_by_index_down bs t target j re tampered
                  (fuel - (length bs - S t)) Hcodec Hl Hnd Ht Hj ltac:(lia) Hheadt Hm)
        as (ch2' & ev' & Hm' & Hst' & Erun).
      replace (length bs - S t + (fuel - (length bs - S t)))%nat with fuel in Erun by lia.
      exists ch2'. rewrite Erun. unfold bind. rewrite Htamp; [done| |done].
      apply (mirrors_cache_miss bs (S t) t target ch2' Hnd Hm' Ht). lia.
  - intros Hj. destruct (lookup_lt_is_Some_2 bs (Z.to_nat j)) as [bj Hbj]; [lia|].
    pose proof (get_block_by_index_built bs (h c) (Z.to_nat j) bj true fuel
                  Hl Hnd Hcache Hat Hbj ltac:(lia)) as Hrun.
    rewrite Z2Nat.id in Hrun by lia. unfold found, visited in Hrun.
    destruct (get_block_by_index_covered _ (h c) tampered fuel j bj _ (h c)
                Hcodec Hcl Hhead Hrun eq_refl) as (d & ch2 & Erun & Hsame).
    { intros k d Hk. cbn in Hk. now rewrite lookup_empty in Hk. }
    { intros key b' (k & b & Hk & Hle & ->)%visited_keys_position Hb'.
      rewrite (Hcache k b Hk) in Hb'. injection Hb' as <-.
      apply (Hstore k b Hk). lia. }
    exists bj, d, ch2. done.
Qed.
End StoreBackedProperties.

(** * The properties on a concrete chain *)

Lemma bytes_to_pos_to_bytes (p : positive) : bytes_to_pos (pos_to_bytes p) = p.
Proof. induction p as [p IH|p IH|]; cbn; congruence. Qed.

Lemma packed_block_roundtrip : codec_roundtrip (BlockCls0 := packed_block).
Proof.
  intros b. cbn. rewrite bytes_to_pos_to_bytes, decode_encode.
  eexists. split; [reflexivity|]. now repeat split.
Qed.

Lemma packed_block_hook : hook_keeps_links (BlockCls0 := packed_block).
Proof. intros b. now repeat split. Qed.

Lemma three_run_returns : three_run = (Return three_blocks, three_run.2).
Proof. vm_compute. reflexivity. Qed.

Lemma three_blocks_hids :
  NoDup (BaseBlock_hid (H := fnv_hasher) (BlockCls0 := packed_block) <$> three_blocks).
Proof. apply (bool_decide_unpack _). vm_compute. exact I. Qed.

Lemma three_lookup_returns :
  three_lookup = (Return (FoundWithEvidence three_found three_evidence), three_lookup.2).
Proof. vm_compute. reflexivity. Qed.

(** [skipchain_indices(8)] lies in [[0, 7]] and holds 7. *)
Lemma skipchain_indices_range_witness :
  (∀ x, x ∈ BaseBlock_skipchain_indices 8 -> 0 ≤ x ≤ 8 - 1)
  ∧ 8 - 1 ∈ BaseBlock_skipchain_indices 8.
Proof.
  apply (proj1 (skipchain_indices_range (H := fnv_hasher) (BlockCls0 := packed_block)
                  8 None None)).
  lia.
Defined.

(** Bytes swapped in under the hash of others are caught. *)
Lemma store_get_detects_tampering_witness :
  DictionaryStore_get (H := fnv_hasher)
    (mkStore (<[ascii_hash (H := fnv_hasher) [x01] := [x02]]> ∅))
    (ascii_hash (H := fnv_hasher) [x01]) true
  = Raise (IntegrityValidationError "Object has wrong hash.").
Proof.
  apply (proj2 (proj2 (proj2
    (store_get_detects_tampering (H := fnv_hasher) (mkStore ∅) "" [x01] [x02])))).
  vm_compute. discriminate.
Defined.

(** A block of chain 0 is committed to it; a block of no chain is refused. *)
Lemma commit_needs_chain_witness :
  BaseBlock_commit (H := fnv_hasher) (BlockCls0 := packed_block)
    (mkBlock 0 (Some "Test.") [] None) empty_heap
  = (Raise (ValueError "Chain undefined."), empty_heap)
  ∧ (BaseBlock_commit (H := fnv_hasher) (BlockCls0 := packed_block)
       (mkBlock 0 (Some "Test.") [] (Some 0%nat)) empty_heap).1
    = Return (mkBlock 0 (Some "Test.") [] (Some 0%nat)).
Proof.
  split.
  - apply (proj1 (proj2 (commit_needs_chain (H := fnv_hasher) (BlockCls0 := packed_block)
                           (mkBlock 0 (Some "Test.") [] None) empty_heap))).
    reflexivity.
  - destruct (proj2 (proj2 (commit_needs_chain (H := fnv_hasher) (BlockCls0 := packed_block)
                              (mkBlock 0 (Some "Test.") [] (Some 0%nat)) empty_heap))
                0%nat eq_refl eq_refl) as [E _].
    rewrite E. reflexivity.
Defined.

(** The third of the three blocks points to indices 1 and 0. *)
Lemma committed_finger_targets_witness :
  ∃ (k : nat) pred,
    three_blocks !! k = Some pred
    ∧ three_blocks !! S k = Some (mkBlock 2 (Some "Block 2")
                                   [(1, "7c3eefb2"); (0, "d0dd3366")] (Some 0%nat))
    ∧ 2 = Z.of_nat (S k)
    ∧ BaseBlock_index pred = 2 - 1
    ∧ ({[1; 0]} : gset Z) = BaseBlock_skipchain_indices 2 ∩ ({[BaseBlock_index pred]}
                               ∪ finger_targets pred)
    ∧ ({[1; 0]} : gset Z) = {[2 - 1]} ∪ (finger_targets pred ∩ BaseBlock_skipchain_indices 2).
Proof.
  apply (committed_finger_targets (H := fnv_hasher) (BlockCls0 := packed_block)
           0%nat three_payloads empty_heap three_run.2 three_blocks
           (mkBlock 2 (Some "Block 2") [(1, "7c3eefb2"); (0, "d0dd3366")] (Some 0%nat))).
  - exact packed_block_hook.
  - reflexivity.
  - exact three_run_returns.
  - apply list_elem_of_lookup. exists 2%nat. reflexivity.
  - reflexivity.
Defined.

(** Index 1 of the three-block chain is found. *)
Lemma get_block_by_index_finds_index_witness :
  ∃ b, BaseBlock_index b = 1 ∧ three_blocks !! Z.to_nat 1 = Some b
       ∧ ∀ fuel, (length three_payloads ≤ fuel)%nat ->
           Chain_get_block_by_index (H := fnv_hasher) (BlockCls0 := packed_block)
             fuel 1 false three_chain
           = (Return (Found b), three_chain).
Proof.
  apply (get_block_by_index_finds_index (H := fnv_hasher) (BlockCls0 := packed_block)
           0%nat three_payloads empty_heap three_run.2 three_blocks 1).
  - exact packed_block_hook.
  - reflexivity.
  - exact three_run_returns.
  - exact three_blocks_hids.
  - cbn. lia.
Defined.

(** The lookup of index 0 on the three-block chain visits indices 2, 1, 0. *)
Lemma traversal_terminates_witness :
  ∃ b evidence,
    (∀ fuel, (length three_payloads - Z.to_nat 0 ≤ fuel)%nat ->
       Chain_get_block_by_index (H := fnv_hasher) (BlockCls0 := packed_block)
         fuel 0 true three_chain
         = (Return (FoundWithEvidence b evidence), three_chain)
       ∧ Chain_get_block_by_index (H := fnv_hasher) (BlockCls0 := packed_block)
           fuel 0 false three_chain
         = (Return (Found b), three_chain))
    ∧ length evidence = (length three_payloads - Z.to_nat 0)%nat
    ∧ (∀ (j : nat) x y, evidence !! j = Some x -> evidence !! S j = Some y ->
         0 ≤ BaseBlock_index y.2 < BaseBlock_index x.2)
    ∧ (∀ (j : nat) x, evidence !! j = Some x ->
         0 ≤ BaseBlock_index x.2
         ∧ BaseBlock_index x.2 = Z.of_nat (length three_payloads) - 1 - Z.of_nat j)
    ∧ BaseBlock_index b = 0
    ∧ last evidence
      = Some (BaseBlock_hid (H := fnv_hasher) (BlockCls0 := packed_block) b, b)
    ∧ (∀ cur, cur ∈ three_blocks -> 0 < BaseBlock_index cur ->
         ∃ fh next,
           first_finger 0 cur = Return fh
           ∧ Chain_get_block_by_hid (H := fnv_hasher) (BlockCls0 := packed_block)
               fh.2 three_chain = (Return (Some next), three_chain)
           ∧ 0 ≤ BaseBlock_index next < BaseBlock_index cur).
Proof.
  apply (traversal_terminates (H := fnv_hasher) (BlockCls0 := packed_block)
           0%nat three_payloads empty_heap three_run.2 three_blocks 0).
  - exact packed_block_hook.
  - reflexivity.
  - exact three_run_returns.
  - exact three_blocks_hids.
  - cbn. lia.
Defined.

(** On the three-block chain the indices -1 and 3 are refused; an empty
    chain answers [None]. *)
Lemma get_block_by_index_range_check_witness :
  Chain_get_block_by_index (H := fnv_hasher) (BlockCls0 := packed_block)
    3 (-1) false three_chain
  = (Raise (ValueError "Block is beyond this chain head. Must be0 <= -1 <= 2."),
     three_chain)
  ∧ Chain_get_block_by_index (H := fnv_hasher) (BlockCls0 := packed_block)
      3 3 false three_chain
    = (Raise (ValueError "Block is beyond this chain head. Must be0 <= 3 <= 2."),
       three_chain)
  ∧ Chain_get_block_by_index (H := fnv_hasher) (BlockCls0 := packed_block)
      3 3 false (empty_heap 0%nat)
    = (Return NoBlock, empty_heap 0%nat).
Proof.
  split; [|split].
  - apply (proj2 (proj2 (get_block_by_index_range_check
             (H := fnv_hasher) (BlockCls0 := packed_block) 3 (-1) false))
             0%nat three_payloads empty_heap three_run.2 three_blocks).
    + exact packed_block_hook.
    + reflexivity.
    + exact three_run_returns.
    + discriminate.
    + cbn. lia.
  - apply (proj2 (proj2 (get_block_by_index_range_check
             (H := fnv_hasher) (BlockCls0 := packed_block) 3 3 false))
             0%nat three_payloads empty_heap three_run.2 three_blocks).
    + exact packed_block_hook.
    + reflexivity.
    + exact three_run_returns.
    + discriminate.
    + cbn. lia.
  - apply (proj1 (get_block_by_index_range_check
             (H := fnv_hasher) (BlockCls0 := packed_block) 3 3 false)).
    reflexivity.
Defined.

(** C2 as stated fails: on an empty chain index 0 raises nothing, the call
    returns [None]. *)
Lemma empty_chain_lookup_raises_nothing :
  Chain_get_block_by_index (H := fnv_hasher) (BlockCls0 := packed_block)
    1 0 false (Chain_init (mkStore ∅) None None)
  = (Return NoBlock, Chain_init (mkStore ∅) None None)
  ∧ ¬ ∃ msg ch,
        Chain_get_block_by_index (H := fnv_hasher) (BlockCls0 := packed_block)
          1 0 false (Chain_init (mkStore ∅) None None)
        = (Raise (ValueError msg), ch).
Proof.
  split; [reflexivity|]. intros (msg & ch & E). discriminate E.
Qed.

(** The evidence of the lookup of index 1 replays to the same block. *)
Lemma evidence_replay_witness :
  ∃ block' ch2,
    Chain_get_block_by_index (H := fnv_hasher) (BlockCls0 := packed_block) 3 1 false
      (replay_chain (BlockCls0 := packed_block) (head three_chain) three_evidence)
    = (Return (Found block'), ch2)
    ∧ BaseBlock_hid (H := fnv_hasher) (BlockCls0 := packed_block) block'
      = BaseBlock_hid (H := fnv_hasher) (BlockCls0 := packed_block) three_found
    ∧ BaseBlock_index block' = BaseBlock_index three_found
    ∧ (∀ key raw,
         serialized_evidence (BlockCls0 := packed_block) three_evidence !! key = Some raw ->
         check_hash (H := fnv_hasher) key raw = Return tt).
Proof.
  apply (evidence_replay (H := fnv_hasher) (BlockCls0 := packed_block)
           0%nat three_payloads empty_heap three_run.2 three_blocks 3 1
           three_found three_evidence three_lookup.2).
  - exact packed_block_hook.
  - exact packed_block_roundtrip.
  - reflexivity.
  - exact three_run_returns.
  - exact three_lookup_returns.
Defined.

(** ** The further properties on the concrete chain *)

Lemma check_hash_digest_witness :
  check_hash (H := fnv_hasher) (ascii_hash (H := fnv_hasher) [x01]) [x02]
  = Raise (IntegrityValidationError "Object has wrong hash.").
Proof.
  apply (proj2 (proj2 (check_hash_digest (H := fnv_hasher) [x01] [x02]))).
  vm_compute. discriminate.
Defined.

Lemma store_put_other_keys_witness :
  DictionaryStore_get (H := fnv_hasher)
    (DictionaryStore_put (H := fnv_hasher) (mkStore ∅) [x01]) "00" true
  = DictionaryStore_get (H := fnv_hasher) (mkStore ∅) "00" true.
Proof.
  apply (store_put_other_keys (H := fnv_hasher) (mkStore ∅) [x01] "00" true).
  vm_compute. discriminate.
Defined.

Lemma store_filled_by_put_witness :
  ∃ item',
    DictionaryStore_get (H := fnv_hasher)
      (foldl (DictionaryStore_put (H := fnv_hasher)) (mkStore ∅) [[x01]; [x02]])
      (ascii_hash (H := fnv_hasher) [x01]) true
    = Return (Some item')
    ∧ ascii_hash (H := fnv_hasher) item' = ascii_hash (H := fnv_hasher) [x01].
Proof.
  apply (proj2 (proj2 (store_filled_by_put (H := fnv_hasher) [[x01]; [x02]] ""))).
  apply list_elem_of_here.
Defined.

Lemma block_eq_by_digest_witness :
  BaseBlock_eq (H := fnv_hasher) (BlockCls0 := packed_block) second_block second_block
  = true.
Proof.
  apply (proj2 (proj2 (proj2
    (block_eq_by_digest (H := fnv_hasher) (BlockCls0 := packed_block)
       second_block second_block second_block)))); vm_compute; reflexivity.
Defined.

Lemma skipchain_indices_genesis_link_witness :
  0 ∈ BaseBlock_skipchain_indices 8 ↔ 8 ≤ 2 ^ 63.
Proof. apply (proj2 (skipchain_indices_genesis_link 8)). lia. Defined.

Lemma get_block_by_hid_trusts_cache_witness :
  Chain_get_block_by_hid (H := fnv_hasher) (BlockCls0 := packed_block)
    "7c3eefb2" three_chain
  = (Return (Some second_block), three_chain)
  ∧ Chain_get_block_by_hid (H := fnv_hasher) (BlockCls0 := packed_block)
      "7c3eefb2" (overwrite_backend "7c3eefb2" [x00] three_chain)
    = (Return (Some second_block), overwrite_backend "7c3eefb2" [x00] three_chain).
Proof.
  apply (get_block_by_hid_trusts_cache (H := fnv_hasher) (BlockCls0 := packed_block)
           three_chain "7c3eefb2" second_block [x00]).
  vm_compute. reflexivity.
Defined.

Lemma get_block_by_hid_miss_witness :
  Chain_get_block_by_hid (H := fnv_hasher) (BlockCls0 := packed_block)
    "ffffffff" (clear_cache three_chain)
  = (Return None, clear_cache three_chain)
  ∧ Chain_get_block_by_hid (H := fnv_hasher) (BlockCls0 := packed_block)
      "7c3eefb2" three_tampered
    = (Raise (IntegrityValidationError "Object has wrong hash."), three_tampered).
Proof.
  split.
  - apply (proj1 (get_block_by_hid_miss (H := fnv_hasher) (BlockCls0 := packed_block)
                    (clear_cache three_chain) "ffffffff" eq_refl)).
    vm_compute. reflexivity.
  - apply (proj2 (get_block_by_hid_miss (H := fnv_hasher) (BlockCls0 := packed_block)
                    three_tampered "7c3eefb2" eq_refl) [x00]).
    + vm_compute. reflexivity.
    + vm_compute. discriminate.
Defined.

Lemma get_block_by_hid_fetches_once_witness :
  let raw := serialize (BlockCls := packed_block) second_block in
  let b := BaseBlock_init 1 (Some "Block 1") (Some [(0, "d0dd3366")]) None in
  let ch' := mkChain (object_store three_chain) (<[ "7c3eefb2" := b ]> ∅)
               (head three_chain) in
  Chain_get_block_by_hid (H := fnv_hasher) (BlockCls0 := packed_block)
    "7c3eefb2" (clear_cache three_chain) = (Return (Some b), ch')
  ∧ Chain_get_block_by_hid (H := fnv_hasher) (BlockCls0 := packed_block)
      "7c3eefb2" ch' = (Return (Some b), ch').
Proof.
  apply (get_block_by_hid_fetches_once (H := fnv_hasher) (BlockCls0 := packed_block)
           (clear_cache three_chain) "7c3eefb2"
           (serialize (BlockCls := packed_block) second_block)
           (BaseBlock_init 1 (Some "Block 1") (Some [(0, "d0dd3366")]) None)).
  - reflexivity.
  - vm_compute. reflexivity.
  - vm_compute. reflexivity.
  - vm_compute. reflexivity.
Defined.

Lemma three_blocks_second : three_blocks !! 1%nat = Some second_block.
Proof. reflexivity. Qed.

Lemma three_blocks_third : three_blocks !! 2%nat = Some third_block.
Proof. reflexivity. Qed.

Lemma committed_fingers_are_skipchain_indices_witness :
  finger_targets third_block = BaseBlock_skipchain_indices (BaseBlock_index third_block).
Proof.
  apply (committed_fingers_are_skipchain_indices (H := fnv_hasher)
           (BlockCls0 := packed_block) 0%nat three_payloads empty_heap three_run.2
           three_blocks third_block).
  - exact packed_block_hook.
  - reflexivity.
  - exact three_run_returns.
  - apply list_elem_of_lookup. exists 2%nat. exact three_blocks_third.
  - cbn. lia.
Defined.

Lemma committed_fingers_link_back_witness :
  (∀ fh, fh ∈ fingers third_block ->
     0 ≤ fh.1 < Z.of_nat 2
     ∧ ∃ target, three_blocks !! Z.to_nat fh.1 = Some target
                 ∧ fh.2 = BaseBlock_hid (H := fnv_hasher) (BlockCls0 := packed_block) target)
  ∧ (∀ (j1 j2 : nat) f1 f2, (j1 < j2)%nat ->
       fingers third_block !! j1 = Some f1 -> fingers third_block !! j2 = Some f2 ->
       f2.1 < f1.1)
  ∧ (∀ (j : nat) pred, 2%nat = S j -> three_blocks !! j = Some pred ->
       fingers third_block !! 0%nat
       = Some (BaseBlock_index pred,
               BaseBlock_hid (H := fnv_hasher) (BlockCls0 := packed_block) pred))
  ∧ (length (fingers third_block) ≤ 64)%nat
  ∧ (2%nat = 0%nat -> fingers third_block = []).
Proof.
  apply (committed_fingers_link_back (H := fnv_hasher) (BlockCls0 := packed_block)
           0%nat three_payloads empty_heap three_run.2 three_blocks 2 third_block).
  - exact packed_block_hook.
  - reflexivity.
  - exact three_run_returns.
  - exact three_blocks_third.
Defined.

Lemma built_chain_head_and_next_witness :
  length three_blocks = length three_payloads
  ∧ Chain_len (H := fnv_hasher) (BlockCls0 := packed_block) three_chain
    = (Return (Z.of_nat (length three_payloads)), three_chain)
  ∧ head three_chain
    = BaseBlock_hid (H := fnv_hasher) (BlockCls0 := packed_block) <$> last three_blocks
  ∧ ∃ next,
      Chain_make_next_block (H := fnv_hasher) (BlockCls0 := packed_block)
        0%nat None three_chain = (Return next, three_chain)
      ∧ BaseBlock_index next = Z.of_nat (length three_payloads)
      ∧ _chain next = Some 0%nat ∧ payload next = None
      ∧ Chain_len (H := fnv_hasher) (BlockCls0 := packed_block) three_chain
        = (Return (Z.of_nat (length three_payloads)), three_chain).
Proof.
  apply (built_chain_head_and_next (H := fnv_hasher) (BlockCls0 := packed_block)
           0%nat three_payloads empty_heap three_run.2 three_blocks None).
  - exact packed_block_hook.
  - reflexivity.
  - exact three_run_returns.
Defined.

Lemma built_chain_read_from_store_witness :
  ∃ b, three_blocks !! Z.to_nat 1 = Some b
    ∧ (∃ d ch2,
         Chain_get_block_by_hid (H := fnv_hasher) (BlockCls0 := packed_block)
           (BaseBlock_hid (H := fnv_hasher) (BlockCls0 := packed_block) b)
           (clear_cache three_chain)
           = (Return (Some d), ch2)
         ∧ same_content (BlockCls0 := packed_block) d b
         ∧ BaseBlock_hid (H := fnv_hasher) (BlockCls0 := packed_block) d
           = BaseBlock_hid (H := fnv_hasher) (BlockCls0 := packed_block) b)
    ∧ (∀ fuel, (length three_payloads ≤ fuel)%nat ->
         ∃ d ch2,
           Chain_get_block_by_index (H := fnv_hasher) (BlockCls0 := packed_block)
             fuel 1 false (clear_cache three_chain)
             = (Return (Found d), ch2)
           ∧ same_content (BlockCls0 := packed_block) d b
           ∧ BaseBlock_hid (H := fnv_hasher) (BlockCls0 := packed_block) d
             = BaseBlock_hid (H := fnv_hasher) (BlockCls0 := packed_block) b).
Proof.
  apply (built_chain_read_from_store (H := fnv_hasher) (BlockCls0 := packed_block)
           0%nat three_payloads empty_heap three_run.2 three_blocks 1).
  - exact packed_block_hook.
  - exact packed_block_roundtrip.
  - reflexivity.
  - exact three_run_returns.
  - exact three_blocks_hids.
  - cbn. lia.
Defined.

Lemma evidence_serves_later_indices_witness :
  ∃ block evidence bj,
    Chain_get_block_by_index (H := fnv_hasher) (BlockCls0 := packed_block)
      3 0 true three_chain
      = (Return (FoundWithEvidence block evidence), three_chain)
    ∧ three_blocks !! Z.to_nat 2 = Some bj
    ∧ ∃ d ch2,
        Chain_get_block_by_index (H := fnv_hasher) (BlockCls0 := packed_block)
          3 2 false (replay_chain (BlockCls0 := packed_block) (head three_chain) evidence)
          = (Return (Found d), ch2)
        ∧ same_content (BlockCls0 := packed_block) d bj
        ∧ BaseBlock_hid (H := fnv_hasher) (BlockCls0 := packed_block) d
          = BaseBlock_hid (H := fnv_hasher) (BlockCls0 := packed_block) bj.
Proof.
  apply (evidence_serves_later_indices (H := fnv_hasher) (BlockCls0 := packed_block)
           0%nat three_payloads empty_heap three_run.2 three_blocks 0 2 3).
  - exact packed_block_hook.
  - exact packed_block_roundtrip.
  - reflexivity.
  - exact three_run_returns.
  - exact three_blocks_hids.
  - lia.
  - cbn. lia.
  - cbn. lia.
Defined.

Lemma evidence_is_the_path_from_head_witness :
  ∃ b, three_blocks !! Z.to_nat 1 = Some b
    ∧ Chain_get_block_by_index (H := fnv_hasher) (BlockCls0 := packed_block)
        2 1 true three_chain
      = (Return (FoundWithEvidence b
                   ((λ b, (BaseBlock_hid (H := fnv_hasher) (BlockCls0 := packed_block) b, b))
                      <$> reverse (drop (Z.to_nat 1) three_blocks))),
         three_chain).
Proof.
  apply (evidence_is_the_path_from_head (H := fnv_hasher) (BlockCls0 := packed_block)
           0%nat three_payloads empty_heap three_run.2 three_blocks 1 2).
  - exact packed_block_hook.
  - reflexivity.
  - exact three_run_returns.
  - exact three_blocks_hids.
  - cbn. lia.
  - cbn. lia.
Defined.

Lemma built_chain_returns_payloads_witness :
  ∃ b, three_blocks !! 1%nat = Some b ∧ payload b = Some "Block 1"
    ∧ BaseBlock_index b = Z.of_nat 1
    ∧ Chain_get_block_by_hid (H := fnv_hasher) (BlockCls0 := packed_block)
        (BaseBlock_hid (H := fnv_hasher) (BlockCls0 := packed_block) b) three_chain
      = (Return (Some b), three_chain)
    ∧ ∀ fuel, (length three_payloads ≤ fuel)%nat ->
        Chain_get_block_by_index (H := fnv_hasher) (BlockCls0 := packed_block)
          fuel (Z.of_nat 1) false three_chain
        = (Return (Found b), three_chain).
Proof.
  apply (built_chain_returns_payloads (H := fnv_hasher) (BlockCls0 := packed_block)
           0%nat three_payloads empty_heap three_run.2 three_blocks 1 "Block 1").
  - reflexivity.
  - reflexivity.
  - exact three_run_returns.
  - exact three_blocks_hids.
  - reflexivity.
Defined.

Lemma evidence_misses_lower_indices_witness :
  ∃ block evidence ch2,
    Chain_get_block_by_index (H := fnv_hasher) (BlockCls0 := packed_block)
      3 2 true three_chain
      = (Return (FoundWithEvidence block evidence), three_chain)
    ∧ Chain_get_block_by_index (H := fnv_hasher) (BlockCls0 := packed_block)
        3 0 false (replay_chain (BlockCls0 := packed_block) (head three_chain) evidence)
      = (Return NoBlock, ch2).
Proof.
  apply (evidence_misses_lower_indices (H := fnv_hasher) (BlockCls0 := packed_block)
           0%nat three_payloads empty_heap three_run.2 three_blocks 2 0 false 3).
  - exact packed_block_hook.
  - exact packed_block_roundtrip.
  - reflexivity.
  - exact three_run_returns.
  - exact three_blocks_hids.
  - lia.
  - cbn. lia.
  - cbn. lia.
Defined.

Lemma tampering_is_detected_witness :
  (∃ ch2,
     Chain_get_block_by_index (H := fnv_hasher) (BlockCls0 := packed_block)
       3 0 false three_tampered
     = (Raise (IntegrityValidationError "Object has wrong hash."), ch2))
  ∧ (∃ bj d ch2,
       three_blocks !! Z.to_nat 2 = Some bj
       ∧ Chain_get_block_by_index (H := fnv_hasher) (BlockCls0 := packed_block)
           3 2 false three_tampered
         = (Return (Found d), ch2)
       ∧ same_content (BlockCls0 := packed_block) d bj).
Proof.
  split.
  - apply (proj1 (proj2 (tampering_is_detected (H := fnv_hasher) (BlockCls0 := packed_block)
             0%nat three_payloads empty_heap three_run.2 three_blocks 1 second_block
             [x00] 0 false 3 packed_block_hook packed_block_roundtrip eq_refl
             three_run_returns three_blocks_hids three_blocks_second
             ltac:(vm_compute; discriminate) ltac:(cbn; lia)))).
    lia.
  - apply (proj2 (proj2 (tampering_is_detected (H := fnv_hasher) (BlockCls0 := packed_block)
             0%nat three_payloads empty_heap three_run.2 three_blocks 1 second_block
             [x00] 2 false 3 packed_block_hook packed_block_roundtrip eq_refl
             three_run_returns three_blocks_hids three_blocks_second
             ltac:(vm_compute; discriminate) ltac:(cbn; lia)))).
    cbn. lia.
Defined.

Lemma unchecked_fingers_break_lookup_witness :
  Chain_get_block_by_index (H := fnv_hasher) (BlockCls0 := packed_block) 1 3 false
    (Chain_commit_block (H := fnv_hasher) (BlockCls0 := packed_block)
       (mkBlock 5 (Some "Test.") [] (Some 0%nat)) (empty_heap 0%nat)).2
  = (Raise IndexError,
     (Chain_commit_block (H := fnv_hasher) (BlockCls0 := packed_block)
        (mkBlock 5 (Some "Test.") [] (Some 0%nat)) (empty_heap 0%nat)).2).
Proof.
  apply (unchecked_fingers_break_lookup (H := fnv_hasher) (BlockCls0 := packed_block)
           (empty_heap 0%nat) (mkBlock 5 (Some "Test.") [] (Some 0%nat)) 3 false 0).
  - cbn. lia.
  - intros fh Hin. now apply elem_of_nil in Hin.
Defined.
